(** * miri_lrs_extract_L3.py: extraction driver for MIRI LRS level-3 products

    The script holds one function, [extract_spectrum], and a command-line
    driver.  Both are glue around three libraries: the pipeline's
    [Extract1dStep], matplotlib's [pyplot] and the standard [argparse].
    The libraries are outside the repository, so the script is embedded as
    a program over an interface of library calls; every statement below
    quantifies over all behaviours of the libraries (a handler that may
    return or raise at each call, threading an arbitrary world).  The
    imports at the top of the module belong to neither part and are left
    out. *)

From Stdlib Require Import String Ascii List ZArith Lia Bool.
From stdpp Require Import base gmap strings list fin_maps.

Local Open Scope string_scope.
Local Open Scope Z_scope.

(** ** Python values and exceptions *)

Inductive exn : Type :=
| IndexError
| KeyError (key : string)
| AttributeError (attr : string)
| SystemExit (code : Z)
| LibraryError (what : string).

(** The values the script handles without looking inside: paths, flags and
    step attributes.  [VObject] is an object of any other type, known by
    what testing its truth value does: it returns a boolean or raises (an
    array of several elements raises [ValueError]). *)
Inductive pyval : Type :=
| VNone
| VBool (b : bool)
| VInt (n : Z)
| VStr (s : string)
| VList (items : list string)
| VObject (truth : exn + bool).

(** Truth value testing, as done by [if plot:]: [truthy v] when the test
    returns [True]. *)
Definition truthy (v : pyval) : bool :=
  match v with
  | VNone => false
  | VBool b => b
  | VInt n => negb (n =? 0)
  | VStr s => negb (String.eqb s "")
  | VList l => match l with [] => false | _ :: _ => true end
  | VObject t => match t with inr b => b | inl _ => false end
  end.

(** The outcome of the test itself. *)
Definition truth_value (v : pyval) : exn + bool :=
  match v with
  | VObject t => t
  | _ => inr (truthy v)
  end.

(** ** Strings

    [s.startswith(pre)]. *)
Fixpoint startswith (s pre : string) {struct pre} : bool :=
  match pre with
  | EmptyString => true
  | String a pre' =>
      match s with
      | EmptyString => false
      | String b s' => Ascii.eqb a b && startswith s' pre'
      end
  end.

(** ** [str.replace]

    [s.replace(old, new)] rewrites the non-overlapping occurrences of
    [old], scanning from the left.  [skip] counts the characters of an
    occurrence that are still to be dropped. *)
Fixpoint replace_from (old new : string) (skip : nat) (s : string) : string :=
  match s with
  | EmptyString => EmptyString
  | String c s' =>
      match skip with
      | S n => replace_from old new n s'
      | O =>
          if startswith s old
          then String.append new (replace_from old new (Nat.pred (String.length old)) s')
          else String c (replace_from old new O s')
      end
  end.

(** With an empty [old], Python puts [new] before every character and at
    the end. *)
Fixpoint intersperse (new s : string) : string :=
  match s with
  | EmptyString => new
  | String c s' => String.append new (String c (intersperse new s'))
  end.

Definition str_replace (s old new : string) : string :=
  match old with
  | EmptyString => intersperse new s
  | String _ _ => replace_from old new O s
  end.

(** [old] occurs in [s] as a substring; [contains s old] is [old in s]. *)
Definition occurs (old s : string) : Prop :=
  exists a b, s = String.append a (String.append old b).

Fixpoint contains (s old : string) : bool :=
  startswith s old ||
  match s with
  | EmptyString => false
  | String _ s' => contains s' old
  end.

(** [s[:-1]]. *)
Fixpoint chop (s : string) : string :=
  match s with
  | EmptyString => EmptyString
  | String c s' =>
      match s' with
      | EmptyString => EmptyString
      | String _ _ => String c (chop s')
      end
  end.

(** ** [argparse]

    The part of the standard library's [argparse] (CPython 3.11) that the
    driver exercises: optional arguments with the [store], [store_true]
    and [help] actions, read from the argument strings after the program
    name.  Strings are taken as ASCII text. *)
Module argparse.

Inductive Action : Type := Store | StoreTrue | Help.

(** One [add_argument] call.  [dest = None] is [SUPPRESS]: nothing is
    stored in the namespace. *)
Record Argument := {
  option_strings : list string;
  dest : option string;
  required : bool;
  default : pyval;
  action : Action
}.

(** [nargs = 0] for the actions that take no value. *)
Definition takes_value (a : Argument) : bool :=
  match action a with Store => true | _ => false end.

Definition name (a : Argument) : string := hd "" (option_strings a).

(** [ArgumentParser(...)] with [add_help] left at its default. *)
Definition arg_help : Argument :=
  {| option_strings := ["-h"; "--help"]; dest := None; required := false;
     default := VNone; action := Help |}.

Definition ArgumentParser : list Argument := [arg_help].

Definition option_string_actions (p : list Argument) : list (string * Argument) :=
  flat_map (fun a => map (fun o => (o, a)) (option_strings a)) p.

Fixpoint lookup_option (tbl : list (string * Argument)) (o : string) : option Argument :=
  match tbl with
  | [] => None
  | (o', a) :: tbl' => if String.eqb o' o then Some a else lookup_option tbl' o
  end.

(** [s.split('=', 1)] when ['='] is in [s]. *)
Fixpoint split_eq (s : string) : option (string * string) :=
  match s with
  | EmptyString => None
  | String c s' =>
      if Ascii.eqb c "=" then Some (EmptyString, s')
      else match split_eq s' with
           | Some (a, b) => Some (String c a, b)
           | None => None
           end
  end.

Fixpoint has_space (s : string) : bool :=
  match s with
  | EmptyString => false
  | String c s' => Ascii.eqb c " " || has_space s'
  end.

Definition is_digit (c : ascii) : bool :=
  let n := nat_of_ascii c in (48 <=? n)%nat && (n <=? 57)%nat.

Fixpoint skip_digits (s : string) : string :=
  match s with
  | String c s' => if is_digit c then skip_digits s' else s
  | EmptyString => s
  end.

(** [$] matches at the end and before a final newline. *)
Definition at_end (s : string) : bool :=
  match s with
  | EmptyString => true
  | String c EmptyString => Ascii.eqb c "010"
  | _ => false
  end.

Definition some_digits_then_end (s : string) : bool :=
  match s with
  | String c _ => is_digit c && at_end (skip_digits s)
  | EmptyString => false
  end.

(** [_negative_number_matcher]: [^-\d+$|^-\d*\.\d+$]. *)
Definition negative_number (s : string) : bool :=
  match s with
  | String c s' =>
      Ascii.eqb c "-" &&
      (some_digits_then_end s' ||
       match skip_digits s' with
       | String d s'' => Ascii.eqb d "." && some_digits_then_end s''
       | EmptyString => false
       end)
  | EmptyString => false
  end.

(** How one argument string is read: a plain argument (['A']), an option
    of the parser with the argument glued to it if any, a string that
    looks like an option and is none (both ['O']), or the first [--]. *)
Inductive Lexeme : Type :=
| LArg (s : string)
| LOpt (a : Argument) (option_string : string) (explicit_arg : option string)
| LUnknown (s : string)
| LDashes.

Definition usage_error : exn := SystemExit 2.

Definition get_option_tuples (tbl : list (string * Argument)) (arg : string)
  : list (Argument * string * option string) :=
  match arg with
  | String c0 (String c1 rest) =>
      if Ascii.eqb c1 "-" then
        let '(option_prefix, explicit_arg) :=
          match split_eq arg with
          | Some (a, b) => (a, Some b)
          | None => (arg, None)
          end in
        flat_map (fun '(o, a) =>
                    if startswith o option_prefix then [(a, o, explicit_arg)] else [])
                 tbl
      else
        let short_option_prefix := String c0 (String c1 EmptyString) in
        flat_map (fun '(o, a) =>
                    if String.eqb o short_option_prefix then [(a, o, Some rest)]
                    else if startswith o arg then [(a, o, None)] else [])
                 tbl
  | _ => []
  end.

(** [_parse_optional]. *)
Definition parse_optional (tbl : list (string * Argument)) (arg : string) : exn + Lexeme :=
  match arg with
  | EmptyString => inr (LArg arg)
  | String c rest =>
      if negb (Ascii.eqb c "-") then inr (LArg arg) else
      match lookup_option tbl arg with
      | Some a => inr (LOpt a arg None)
      | None =>
          match rest with
          | EmptyString => inr (LArg arg)
          | String _ _ =>
              let exact :=
                match split_eq arg with
                | Some (o, e) =>
                    match lookup_option tbl o with
                    | Some a => Some (LOpt a o (Some e))
                    | None => None
                    end
                | None => None
                end in
              match exact with
              | Some l => inr l
              | None =>
                  match get_option_tuples tbl arg with
                  | _ :: _ :: _ => inl usage_error
                  | [(a, o, e)] => inr (LOpt a o e)
                  | [] =>
                      if negative_number arg then inr (LArg arg)
                      else if has_space arg then inr (LArg arg)
                      else inr (LUnknown arg)
                  end
              end
          end
      end
  end.

(** All strings are read before any action is taken; after the first
    [--] every string is a plain argument. *)
Fixpoint lex (tbl : list (string * Argument)) (argv : list string) : exn + list Lexeme :=
  match argv with
  | [] => inr []
  | arg :: argv' =>
      if String.eqb arg "--" then inr (LDashes :: map LArg argv')
      else match parse_optional tbl arg with
           | inl e => inl e
           | inr l =>
               match lex tbl argv' with
               | inl e => inl e
               | inr ls => inr (l :: ls)
               end
           end
  end.

Definition single_dash (o : string) : bool :=
  match o with
  | String _ (String c _) => negb (Ascii.eqb c "-")
  | _ => false
  end.

(** An option with a glued argument: a single-dash option without value
    passes the tail on as further single-dash options ([-xyz]).  Returns
    the options to act on first, and the last one with its argument. *)
Fixpoint unbundle (tbl : list (string * Argument)) (a : Argument) (o : string)
    (explicit_arg : string) : exn + (list Argument * Argument * option string) :=
  if takes_value a then inr ([], a, Some explicit_arg)
  else if negb (single_dash o) then inl usage_error
  else match explicit_arg with
       | EmptyString => inl usage_error
       | String c tail =>
           let o' := String "-" (String c EmptyString) in
           match lookup_option tbl o' with
           | None => inl usage_error
           | Some a' =>
               match tail with
               | EmptyString => inr ([a], a', None)
               | String _ _ =>
                   match unbundle tbl a' o' tail with
                   | inl e => inl e
                   | inr (pre, last, e) => inr (a :: pre, last, e)
                   end
               end
           end
       end.

(** The parse state: the namespace and the actions seen. *)
Record State := { namespace : gmap string pyval; seen : gset string }.

Definition setattr (ns : gmap string pyval) (d : option string) (v : pyval)
  : gmap string pyval :=
  match d with
  | Some k => <[k := v]> ns
  | None => ns
  end.

(** [_get_values] for one argument string: a [--] is stripped first. *)
Definition get_values (v : string) : pyval :=
  if String.eqb v "--" then VList [] else VStr v.

(** [take_action]: [args] is the value of a [store]. *)
Definition take_action (a : Argument) (args : option string) (st : State) : exn + State :=
  let seen' := {[ name a ]} ∪ seen st in
  match action a with
  | Help => inl (SystemExit 0)
  | StoreTrue => inr {| namespace := setattr (namespace st) (dest a) (VBool true); seen := seen' |}
  | Store =>
      match args with
      | Some v => inr {| namespace := setattr (namespace st) (dest a) (get_values v); seen := seen' |}
      | None => inl usage_error
      end
  end.

Fixpoint take_actions (pre : list Argument) (st : State) : exn + State :=
  match pre with
  | [] => inr st
  | a :: pre' =>
      match take_action a None st with
      | inl e => inl e
      | inr st' => take_actions pre' st'
      end
  end.

(** The consuming loop.  The parser has no positional argument, so a plain
    argument that no option takes is left over, as is an unknown option. *)
Fixpoint consume (tbl : list (string * Argument)) (ls : list Lexeme) (st : State)
    (extras : list string) : exn + (State * list string) :=
  match ls with
  | [] => inr (st, extras)
  | LArg s :: ls' => consume tbl ls' st (extras ++ [s])
  | LDashes :: ls' => consume tbl ls' st (extras ++ ["--"])
  | LUnknown s :: ls' => consume tbl ls' st (extras ++ [s])
  | LOpt a o explicit_arg :: ls' =>
      let resolved :=
        match explicit_arg with
        | Some e => unbundle tbl a o e
        | None => inr ([], a, None)
        end in
      match resolved with
      | inl e => inl e
      | inr (pre, last, Some v) =>
          match take_actions pre st with
          | inl e => inl e
          | inr st' =>
              match take_action last (Some v) st' with
              | inl e => inl e
              | inr st'' => consume tbl ls' st'' extras
              end
          end
      | inr (pre, last, None) =>
          if takes_value last then
            match ls' with
            | LArg v :: ls'' =>
                match take_actions pre st with
                | inl e => inl e
                | inr st' =>
                    match take_action last (Some v) st' with
                    | inl e => inl e
                    | inr st'' => consume tbl ls'' st'' extras
                    end
                end
            | _ => inl usage_error
            end
          else
            match take_actions (pre ++ [last]) st with
            | inl e => inl e
            | inr st' => consume tbl ls' st' extras
            end
      end
  end.

(** The namespace before parsing holds every default. *)
Definition defaults (p : list Argument) : gmap string pyval :=
  fold_left (fun ns a => setattr ns (dest a) (default a)) p ∅.

Definition missing_required (p : list Argument) (sn : gset string) : bool :=
  existsb (fun a => required a && negb (bool_decide (name a ∈ sn))) p.

(** [parser.parse_args(argv)]: the namespace, or [SystemExit].  The help
    and usage texts that [argparse] prints on the way out are left out. *)
Definition parse_args (p : list Argument) (argv : list string) : exn + gmap string pyval :=
  let tbl := option_string_actions p in
  match lex tbl argv with
  | inl e => inl e
  | inr ls =>
      match consume tbl ls {| namespace := defaults p; seen := ∅ |} [] with
      | inl e => inl e
      | inr (st, extras) =>
          if missing_required p (seen st) then inl usage_error
          else match extras with
               | [] => inr (namespace st)
               | _ :: _ => inl usage_error
               end
      end
  end.

End argparse.

(** The three [add_argument] calls of the driver. *)
Definition arg_s2dfile : argparse.Argument :=
  {| argparse.option_strings := ["--s2dfile"]; argparse.dest := Some "s2dfile";
     argparse.required := true; argparse.default := VNone;
     argparse.action := argparse.Store |}.

Definition arg_parfile : argparse.Argument :=
  {| argparse.option_strings := ["--parfile"]; argparse.dest := Some "parfile";
     argparse.required := false; argparse.default := VStr "miri_lrs_demo_extract1d.json";
     argparse.action := argparse.Store |}.

Definition arg_save_plot : argparse.Argument :=
  {| argparse.option_strings := ["--save_plot"]; argparse.dest := Some "save_plot";
     argparse.required := false; argparse.default := VBool false;
     argparse.action := argparse.StoreTrue |}.

(** The parser the driver builds. *)
Definition parser : list argparse.Argument :=
  argparse.ArgumentParser ++ [arg_s2dfile; arg_parfile; arg_save_plot].

(** Some argument string of the command line is read as the option that
    stores into [d]. *)
Definition given (d : string) (argv : list string) : bool :=
  match argparse.lex (argparse.option_string_actions parser) argv with
  | inr ls =>
      existsb (fun l => match l with
                        | argparse.LOpt a _ _ => bool_decide (argparse.dest a = Some d)
                        | _ => false
                        end) ls
  | inl _ => false
  end.

(** ** Library interface *)

Section Script.

(** A column of a spectral table (an array of floating-point samples): the
    script never inspects one.  [World] is what the pipeline and [pyplot]
    act on (file system, the current matplotlib figure). *)
Context {Column World : Type}.

Record SpecModel := { spec_table : gmap string Column }.
Record Meta := { filename : pyval }.
Record MultiSpecModel := { spec : list SpecModel; meta : Meta }.

(** The calls the script makes into the pipeline and into [pyplot].  A
    step object is its attribute dictionary. *)
Inductive Call : Type :=
| Extract1dStep_new
| Step_run (x1d : gmap string pyval) (input : pyval)
| plt_figure (figsize : list Z)
| plt_plot (x y : Column)
| plt_title (label : pyval)
| plt_xlabel (label : pyval)
| plt_ylabel (label : pyval)
| plt_savefig (fname : pyval).

(** What a call returns.  The objects returned by [pyplot] are dropped by
    the script ([fig] is bound and never read). *)
Definition Ret (c : Call) : Type :=
  match c with
  | Extract1dStep_new => gmap string pyval
  | Step_run _ _ => MultiSpecModel
  | _ => unit
  end.

Inductive RetVal : Type :=
| RStep (x1d : gmap string pyval)
| RModel (m : MultiSpecModel)
| RNone.

Definition retval (c : Call) : Ret c -> RetVal :=
  match c as c0 return Ret c0 -> RetVal with
  | Extract1dStep_new => RStep
  | Step_run _ _ => RModel
  | _ => fun _ => RNone
  end.

(** ** Programs over the interface *)

(** [Try body handler k] is [try: body] [except: handler], followed by
    [k].  The script has no such statement; a program that has one can
    keep an exception from its caller. *)
Inductive Prog (R : Type) : Type :=
| Return (r : R)
| Raise (e : exn)
| Do (c : Call) (k : Ret c -> Prog R)
| Try (A : Type) (body : Prog A) (handler : exn -> Prog A) (k : A -> Prog R).

Arguments Return {R} r.
Arguments Raise {R} e.
Arguments Do {R} c k.
Arguments Try {R A} body handler k.

Fixpoint bind {A B : Type} (p : Prog A) (f : A -> Prog B) : Prog B :=
  match p with
  | Return a => f a
  | Raise e => Raise e
  | Do c k => Do c (fun x => bind (k x) f)
  | Try body handler k => Try body handler (fun x => bind (k x) f)
  end.

Definition call (c : Call) : Prog (Ret c) := Do c Return.

#[global] Instance prog_ret : MRet Prog := @Return.
#[global] Instance prog_bind : MBind Prog := fun A B f p => bind p f.

(** [l[i]] on a list, for a non-negative literal index. *)
Definition getitem_list {A : Type} (l : list A) (i : nat) : Prog A :=
  match l !! i with
  | Some a => Return a
  | None => Raise IndexError
  end.

(** [table[name]] on a spectral table. *)
Definition getitem_table (t : gmap string Column) (name : string) : Prog Column :=
  match t !! name with
  | Some col => Return col
  | None => Raise (KeyError name)
  end.

(** [bool(v)], as [if v:] evaluates it. *)
Definition test (v : pyval) : Prog bool :=
  match truth_value v with
  | inl e => Raise e
  | inr b => Return b
  end.

(** [v.replace(old, new)]: only a string has the method. *)
Definition replace_method (v : pyval) (old new : string) : Prog pyval :=
  match v with
  | VStr s => Return (VStr (str_replace s old new))
  | _ => Raise (AttributeError "replace")
  end.

(** ** [extract_spectrum] *)

Definition extract_spectrum (s2dfile parfile plot : pyval) : Prog unit :=
  x1d ← call Extract1dStep_new;
  let x1d := <["save_results" := VBool true]> x1d in
  let x1d := <["output_dir" := VStr "./"]> x1d in
  let x1d := <["override_extract1d" := parfile]> x1d in
  let x1d := <["use_source_posn" := VBool false]> x1d in
  sp3 ← call (Step_run x1d s2dfile);
  b ← test plot;
  if (b : bool) then
    call (plt_figure [10; 6]);;
    s0 ← getitem_list (spec sp3) 0;
    wavelength ← getitem_table (spec_table s0) "WAVELENGTH";
    s0' ← getitem_list (spec sp3) 0;
    flux ← getitem_table (spec_table s0') "FLUX";
    call (plt_plot wavelength flux);;
    call (plt_title (filename (meta sp3)));;
    call (plt_xlabel (VStr "micron"));;
    call (plt_ylabel (VStr "Jy"));;
    outfile ← replace_method (filename (meta sp3)) "_extract1dstep.fits" ".png";
    call (plt_savefig outfile);;
    mret tt
  else mret tt.

(** ** The command-line driver

    The block under [if __name__ == '__main__':].  [argv] is
    [sys.argv[1:]]; [args.name] is an attribute read on the namespace. *)
Definition getattr (ns : gmap string pyval) (name : string) : Prog pyval :=
  match ns !! name with
  | Some v => Return v
  | None => Raise (AttributeError name)
  end.

Definition main (argv : list string) : Prog unit :=
  match argparse.parse_args parser argv with
  | inl e => Raise e
  | inr args =>
      s2dfile ← getattr args "s2dfile";
      parfile ← getattr args "parfile";
      plot ← getattr args "save_plot";
      extract_spectrum s2dfile parfile plot
  end.

(** ** Running a program against the libraries *)

(** One library call as it happened: the call, what came back, and the
    world it left. *)
Record Event := { ev_call : Call; ev_outcome : exn + RetVal; ev_after : World }.

Definition Handler : Type := forall c : Call, World -> (exn + Ret c) * World.

Fixpoint exec {R : Type} (h : Handler) (p : Prog R) (w : World)
  : (exn + R) * World * list Event :=
  match p with
  | Return r => (inr r, w, [])
  | Raise e => (inl e, w, [])
  | Do c k =>
      match h c w with
      | (inl e, w') => (inl e, w', [Build_Event c (inl e) w'])
      | (inr x, w') =>
          let '(r, w'', tr) := exec h (k x) w' in
          (r, w'', Build_Event c (inr (retval c x)) w' :: tr)
      end
  | Try body handler k =>
      let '(r1, w1, tr1) := exec h body w in
      match r1 with
      | inr a =>
          let '(r, w2, tr2) := exec h (k a) w1 in (r, w2, (tr1 ++ tr2)%list)
      | inl e =>
          let '(r1', w1', tr1') := exec h (handler e) w1 in
          match r1' with
          | inr a =>
              let '(r, w2, tr2) := exec h (k a) w1' in
              (r, w2, (tr1 ++ tr1' ++ tr2)%list)
          | inl e' => (inl e', w1', (tr1 ++ tr1')%list)
          end
      end
  end.

Definition result {R : Type} (h : Handler) (p : Prog R) (w : World) : exn + R :=
  (exec h p w).1.1.

Definition final_world {R : Type} (h : Handler) (p : Prog R) (w : World) : World :=
  (exec h p w).1.2.

Definition trace {R : Type} (h : Handler) (p : Prog R) (w : World) : list Event :=
  (exec h p w).2.

(** ** Reading a trace *)

Definition is_plot_call (c : Call) : bool :=
  match c with
  | Extract1dStep_new | Step_run _ _ => false
  | _ => true
  end.

Definition failed (ev : Event) : option exn :=
  match ev_outcome ev with
  | inl e => Some e
  | inr _ => None
  end.

(** The step object and the input of every [run] call. *)
Definition runs (tr : list Event) : list (gmap string pyval * pyval) :=
  flat_map (fun ev => match ev_call ev with
                      | Step_run x1d input => [(x1d, input)]
                      | _ => []
                      end) tr.

(** The products the [run] calls returned, each with the world right
    after the call. *)
Definition products (tr : list Event) : list (MultiSpecModel * World) :=
  flat_map (fun ev => match ev_call ev, ev_outcome ev with
                      | Step_run _ _, inr (RModel sp3) => [(sp3, ev_after ev)]
                      | _, _ => []
                      end) tr.

(** The [(x, y)] arguments of every [plt.plot] call. *)
Definition plots (tr : list Event) : list (Column * Column) :=
  flat_map (fun ev => match ev_call ev with
                      | plt_plot x y => [(x, y)]
                      | _ => []
                      end) tr.

(** The file name of every [plt.savefig] call. *)
Definition savefigs (tr : list Event) : list pyval :=
  flat_map (fun ev => match ev_call ev with
                      | plt_savefig fname => [fname]
                      | _ => []
                      end) tr.



(** The calls of a trace, and the place of a call in the text of
    [extract_spectrum]. *)
Definition calls (tr : list Event) : list Call := map ev_call tr.

Definition call_index (c : Call) : nat :=
  match c with
  | Extract1dStep_new => 0
  | Step_run _ _ => 1
  | plt_figure _ => 2
  | plt_plot _ _ => 3
  | plt_title _ => 4
  | plt_xlabel _ => 5
  | plt_ylabel _ => 6
  | plt_savefig _ => 7
  end.

End Script.

Arguments Return {Column R} r.
Arguments Raise {Column R} e.
Arguments Do {Column R} c k.
Arguments Try {Column R A} body handler k.

(** ** A small world to run the script in

    Columns are lists of integers, the world is the list of files written.
    [run] saves when the step is configured to.  [savefig] does as
    matplotlib does: the extension of the file name is the format, a name
    without one gets [.png], and a format that is not known is a
    [ValueError] with nothing written. *)

(** The text after the last dot of a file name. *)
Fixpoint extension (name : string) : option string :=
  match name with
  | EmptyString => None
  | String c rest =>
      match extension rest with
      | Some e => Some e
      | None => if Ascii.eqb c "." then Some rest else None
      end
  end.

Definition savefig_formats : list string :=
  ["eps"; "jpeg"; "jpg"; "pdf"; "pgf"; "png"; "ps"; "raw"; "rgba"; "svg"; "svgz";
   "tif"; "tiff"; "webp"].

Definition demo_product (fname : string) : @MultiSpecModel (list Z) :=
  {| spec := [ {| spec_table := <["WAVELENGTH" := [5; 6; 7]]> (<["FLUX" := [10; 20; 30]]> ∅) |} ];
     meta := {| filename := VStr fname |} |}.

Definition demo_handler (fname : string) : @Handler (list Z) (list string) :=
  fun c =>
    match c as c0 return list string -> (exn + Ret c0) * list string with
    | Extract1dStep_new => fun w => (inr (<["save_results" := VBool false]> ∅), w)
    | Step_run x1d input => fun w =>
        match x1d !! "save_results", x1d !! "output_dir" with
        | Some (VBool true), Some (VStr d) =>
            (inr (demo_product fname), String.append d fname :: w)
        | _, _ => (inr (demo_product fname), w)
        end
    | plt_savefig fname' => fun w =>
        match fname' with
        | VStr f =>
            match extension f with
            | Some e =>
                if existsb (String.eqb e) savefig_formats then (inr tt, f :: w)
                else (inl (LibraryError "ValueError"), w)
            | None => (inr tt, String.append f ".png" :: w)
            end
        | _ => (inl (LibraryError "savefig"), w)
        end
    | _ => fun w => (inr tt, w)
    end.

(** The same world, [run] returning the product [sp3]. *)
Definition product_handler (sp3 : @MultiSpecModel (list Z))
  : @Handler (list Z) (list string) :=
  fun c =>
    match c as c0 return list string -> (exn + Ret c0) * list string with
    | Step_run _ _ => fun w => (inr sp3, w)
    | c0 => demo_handler "" c0
    end.

(** A result file of the step is in directory [d]. *)
Definition saved_in (d : string) (w : list string) : Prop :=
  exists f, String.append d f ∈ w.

(** * Properties *)

Local Close Scope Z_scope.

(** ** [str.replace] *)

Lemma append_cons (c : ascii) (a b : string) : String c a +:+ b = String c (a +:+ b).
Proof. reflexivity. Qed.

Lemma append_nil_l (s : string) : "" +:+ s = s.
Proof. reflexivity. Qed.

Lemma append_nil_r (s : string) : s +:+ "" = s.
Proof. induction s as [|c s IH]; [reflexivity|]. rewrite append_cons, IH. reflexivity. Qed.

Lemma length_append (a b : string) :
  String.length (a +:+ b) = (String.length a + String.length b)%nat.
Proof.
  induction a as [|c a IH]; [reflexivity|].
  rewrite append_cons. simpl. rewrite IH. reflexivity.
Qed.

Lemma startswith_app (s old : string) :
  startswith s old = true <-> exists b, s = old +:+ b.
Proof.
  revert s. induction old as [|c old IH]; intros s; simpl.
  - split; [intros _; exists s; reflexivity | reflexivity].
  - destruct s as [|d s].
    + split; [discriminate | intros [b Hb]; rewrite append_cons in Hb; discriminate].
    + destruct (Ascii.eqb_spec c d) as [->|Hne]; simpl.
      * rewrite IH. split; intros [b Hb]; exists b.
        -- rewrite append_cons. congruence.
        -- rewrite append_cons in Hb. congruence.
      * split; [discriminate | intros [b Hb]; rewrite append_cons in Hb; congruence].
Qed.

Lemma startswith_refl (s : string) : startswith s s = true.
Proof. apply startswith_app. exists "". symmetry. apply append_nil_r. Qed.

Lemma append_assoc (a b c : string) : (a +:+ b) +:+ c = a +:+ b +:+ c.
Proof.
  induction a as [|x a IH]; [reflexivity|].
  rewrite !append_cons, IH. reflexivity.
Qed.

Lemma startswith_trans (s p q : string) :
  startswith s p = true -> startswith p q = true -> startswith s q = true.
Proof.
  intros [b ->]%startswith_app [c ->]%startswith_app.
  apply startswith_app. exists (c +:+ b). apply append_assoc.
Qed.

(** Dropping the rest of an occurrence. *)
Lemma replace_from_skip (old new a b : string) :
  replace_from old new (String.length a) (a +:+ b) = replace_from old new O b.
Proof.
  induction a as [|c a IH]; [rewrite append_nil_l; destruct b; reflexivity|].
  rewrite append_cons. simpl. exact IH.
Qed.

Lemma occurs_tail (old : string) (c : ascii) (s : string) :
  occurs old s -> occurs old (String c s).
Proof. intros (a & b & ->). exists (String c a), b. reflexivity. Qed.



(** A nonempty pattern found only at the very end is replaced there. *)
Lemma str_replace_suffix (base old new : string) :
  old <> "" ->
  (forall a b, base +:+ old = a +:+ old +:+ b -> b = "") ->
  str_replace (base +:+ old) old new = base +:+ new.
Proof.
  intros Hne Hend. destruct old as [|o old]; [congruence|]. clear Hne.
  unfold str_replace. induction base as [|c base IH].
  - rewrite !append_nil_l. cbn [replace_from].
    replace (startswith (String o old) (String o old)) with true
      by (symmetry; apply startswith_app; exists ""; symmetry; apply append_nil_r).
    cbn [String.length Nat.pred].
    rewrite <- (append_nil_r old) at 3.
    rewrite replace_from_skip. simpl. rewrite append_nil_r. reflexivity.
  - rewrite !append_cons. cbn [replace_from].
    destruct (startswith (String c (base +:+ String o old)) (String o old)) eqn:Hp.
    + exfalso. apply startswith_app in Hp as [b Hb].
      assert (b = "") as -> by (apply (Hend "" b); exact Hb).
      apply (f_equal String.length) in Hb.
      rewrite append_nil_r in Hb. simpl in Hb. rewrite length_append in Hb.
      simpl in Hb. lia.
    + f_equal. apply IH.
      intros a b Hab. apply (Hend (String c a) b).
      rewrite (append_cons c base), (append_cons c a). congruence.
Qed.

(** [contains] decides [occurs]. *)
Lemma contains_occurs (s old : string) :
  contains s old = true <-> occurs old s.
Proof.
  split.
  - induction s as [|c s IH]; cbn [contains]; intros H.
    + rewrite orb_false_r in H. apply startswith_app in H as [b Hb].
      exists "", b. exact Hb.
    + apply orb_true_iff in H as [H|H].
      * apply startswith_app in H as [b Hb]. exists "", b. exact Hb.
      * apply occurs_tail, IH, H.
  - intros (a & b & ->). induction a as [|c a IH].
    + rewrite append_nil_l.
      assert (Hs : startswith (old +:+ b) old = true) by (apply startswith_app; eauto).
      destruct (old +:+ b); cbn [contains]; rewrite Hs; reflexivity.
    + rewrite append_cons. cbn [contains]. rewrite IH. apply orb_true_r.
Qed.

Lemma chop_app (a b : string) : b <> "" -> chop (a +:+ b) = a +:+ chop b.
Proof.
  intros Hb. induction a as [|c a IH]; [reflexivity|].
  rewrite !append_cons. cbn [chop]. rewrite IH.
  destruct (a +:+ b) eqn:Hab; [|reflexivity].
  apply (f_equal String.length) in Hab. rewrite length_append in Hab.
  destruct b; [congruence|]. cbn in Hab. lia.
Qed.

(** A pattern that is not in [s[:-1]] can only be at the end of [s]. *)
Lemma only_at_end (base old : string) :
  old <> "" ->
  contains (chop (base +:+ old)) old = false ->
  forall a b, base +:+ old = a +:+ old +:+ b -> b = "".
Proof.
  intros Hold Hno a b Hab. destruct b as [|c b]; [reflexivity|]. exfalso.
  rewrite Hab in Hno.
  rewrite chop_app in Hno by (destruct old; [congruence|discriminate]).
  rewrite chop_app in Hno by discriminate.
  assert (Hocc : occurs old (a +:+ old +:+ chop (String c b))) by (eexists _, _; reflexivity).
  apply contains_occurs in Hocc. congruence.
Qed.

(** ** Truth value testing *)

Lemma truth_value_returns (v : pyval) (b : bool) :
  truth_value v = inr b -> truthy v = b.
Proof. destruct v; cbn; try congruence. by intros ->. Qed.

Lemma truth_value_raises (v : pyval) (e : exn) :
  truth_value v = inl e -> truthy v = false.
Proof. destruct v; cbn; try discriminate. by intros ->. Qed.

(** ** Running [extract_spectrum] *)

Section Extraction.

Context {Column World : Type}.
Implicit Types (h : @Handler Column World) (w : World).
Implicit Types (s2dfile parfile plot : pyval).

(** One library call of the script, with both outcomes. *)
Ltac library_call h :=
  match goal with
  | |- context [h ?c ?w] =>
      let e := fresh "e" in
      let x := fresh "x" in
      let w' := fresh "w" in
      let E := fresh "Hcall" in
      destruct (h c w) as [[e|x] w'] eqn:E; cbn
  end.

(** One subscript or method call on a library object. *)
Ltac subscript :=
  match goal with
  | |- context [match spec ?m !! ?i with _ => _ end] =>
      let E := fresh "Hspec" in destruct (spec m !! i) eqn:E; cbn
  | |- context [match spec_table ?s !! ?k with _ => _ end] =>
      let E := fresh "Hcol" in destruct (spec_table s !! k) eqn:E; cbn
  | |- context [match filename ?m with _ => _ end] =>
      let E := fresh "Hname" in destruct (filename m) eqn:E; cbn
  end.

(** The truth test of [if plot:], with its three outcomes. *)
Ltac branch :=
  match goal with
  | |- context [truth_value ?v] =>
      let E := fresh "Htest" in
      let T := fresh "Htruthy" in
      let e := fresh "e" in
      destruct (truth_value v) as [e|[]] eqn:E;
      [ pose proof (truth_value_raises _ _ E) as T
      | pose proof (truth_value_returns _ _ E) as T
      | pose proof (truth_value_returns _ _ E) as T ];
      first [ congruence | try rewrite T; cbn ]
  end.

(** Symbolic execution of the script against [h]: one goal per exit. *)
Ltac execute h :=
  unfold result, final_world, trace, extract_spectrum,
    getitem_list, getitem_table, replace_method, test; cbn;
  repeat first [library_call h | branch | subscript].

(** The four assignments, read back on the configured step. *)
Lemma configured_settings (x0 : gmap string pyval) parfile :
  let x1d := <["use_source_posn" := VBool false]>
               (<["override_extract1d" := parfile]>
                  (<["output_dir" := VStr "./"]>
                     (<["save_results" := VBool true]> x0))) in
  x1d !! "save_results" = Some (VBool true) /\
  x1d !! "output_dir" = Some (VStr "./") /\
  x1d !! "override_extract1d" = Some parfile /\
  x1d !! "use_source_posn" = Some (VBool false).
Proof. repeat split; by simplify_map_eq. Qed.

(** C1: once the step object is built, it is run exactly once, on the
    input file, with [override_extract1d] set to the caller's parameter
    file over whatever the pipeline has as default; when it cannot be
    built, the exception is the caller's and nothing is run. *)
Theorem step_configured_and_run_once h w s2dfile parfile plot :
  match h Extract1dStep_new w with
  | (inr x0, _) =>
      exists x1d,
        runs (trace h (extract_spectrum s2dfile parfile plot) w) = [(x1d, s2dfile)] /\
        x1d !! "override_extract1d" = Some parfile /\
        x1d = <["use_source_posn" := VBool false]>
                (<["override_extract1d" := parfile]>
                   (<["output_dir" := VStr "./"]>
                      (<["save_results" := VBool true]> x0)))
  | (inl e, _) =>
      runs (trace h (extract_spectrum s2dfile parfile plot) w) = [] /\
      result h (extract_spectrum s2dfile parfile plot) w = inl e
  end.
Proof.
  execute h; try (split; reflexivity);
    (eexists; split; [reflexivity | split; [apply configured_settings | reflexivity]]).
Qed.

(** C9: whatever the three arguments are, a step that is run has
    [save_results = True], [output_dir = './'] and
    [use_source_posn = False]; and the step is run as soon as it has been
    built. *)
Theorem fixed_step_settings h w s2dfile parfile plot :
  Forall (fun '(x1d, _) =>
            x1d !! "save_results" = Some (VBool true) /\
            x1d !! "output_dir" = Some (VStr "./") /\
            x1d !! "use_source_posn" = Some (VBool false))
         (runs (trace h (extract_spectrum s2dfile parfile plot) w)) /\
  match h Extract1dStep_new w with
  | (inr _, _) => length (runs (trace h (extract_spectrum s2dfile parfile plot) w)) = 1
  | (inl _, _) => runs (trace h (extract_spectrum s2dfile parfile plot) w) = []
  end.
Proof.
  execute h; (split; [|reflexivity]);
    repeat constructor; apply configured_settings.
Qed.

(** C4: with a false plot flag the script calls nothing but the step's
    constructor and its [run]: no [pyplot] call, no [savefig], and the
    world at the end is the one the last of these two calls left. *)
Theorem no_plot_without_flag h w s2dfile parfile plot :
  truthy plot = false ->
  let tr := trace h (extract_spectrum s2dfile parfile plot) w in
  Forall (fun ev => is_plot_call (ev_call ev) = false) tr /\
  plots tr = [] /\
  savefigs tr = [] /\
  length tr <= 2 /\
  final_world h (extract_spectrum s2dfile parfile plot) w
    = default w (ev_after <$> last tr).
Proof.
  intros Hplot. execute h; repeat split; repeat constructor.
Qed.

(** C2: with a true plot flag, a [plt.plot] call has as [x] the
    ['WAVELENGTH'] column and as [y] the ['FLUX'] column of the
    [spec_table] of [spec[0]] of the product that [run] returned, as they
    are; there is at most one such call, and exactly one when the function
    returns. *)
Theorem plot_of_flux_against_wavelength h w s2dfile parfile plot :
  truthy plot = true ->
  let tr := trace h (extract_spectrum s2dfile parfile plot) w in
  Forall (fun '(x, y) =>
            exists sp3 w1 s0,
              products tr = [(sp3, w1)] /\
              spec sp3 !! 0 = Some s0 /\
              spec_table s0 !! "WAVELENGTH" = Some x /\
              spec_table s0 !! "FLUX" = Some y)
         (plots tr) /\
  length (plots tr) <= 1 /\
  (result h (extract_spectrum s2dfile parfile plot) w = inr tt ->
   length (plots tr) = 1).
Proof.
  intros Hplot. execute h;
    (split; [|split; [lia | try discriminate; reflexivity]]);
    repeat constructor; eauto 10.
Qed.

(** C3: with a true plot flag, the name given to [plt.savefig] is the
    product's [meta.filename] with ["_extract1dstep.fits"] replaced by
    [".png"]; [savefig] is called once when the function returns. *)
Theorem plot_file_name h w s2dfile parfile plot :
  truthy plot = true ->
  let tr := trace h (extract_spectrum s2dfile parfile plot) w in
  Forall (fun fname =>
            exists sp3 w1 f,
              products tr = [(sp3, w1)] /\
              filename (meta sp3) = VStr f /\
              fname = VStr (str_replace f "_extract1dstep.fits" ".png"))
         (savefigs tr) /\
  (result h (extract_spectrum s2dfile parfile plot) w = inr tt ->
   length (savefigs tr) = 1).
Proof.
  intros Hplot. execute h;
    (split; [|try discriminate; reflexivity]);
    repeat constructor; eauto 10.
Qed.



(** C6: the step that is run saves its results into ['./'].  Under the
    pipeline's contract for [run] (a run that returns with
    [save_results = True] leaves a result file in [output_dir]), the file
    is there right after every run that returns, a run has returned
    whenever the function returns, and without plotting the file is there
    when the function returns. *)
Theorem result_file_is_saved (saved : string -> World -> Prop) h
    (contract : forall x1d input w sp3 w' d,
        h (Step_run x1d input) w = (inr sp3, w') ->
        x1d !! "save_results" = Some (VBool true) ->
        x1d !! "output_dir" = Some (VStr d) ->
        saved d w')
    w s2dfile parfile plot :
  Forall (fun '(x1d, _) =>
            x1d !! "save_results" = Some (VBool true) /\
            x1d !! "output_dir" = Some (VStr "./"))
         (runs (trace h (extract_spectrum s2dfile parfile plot) w)) /\
  Forall (fun '(_, w1) => saved "./" w1)
         (products (trace h (extract_spectrum s2dfile parfile plot) w)) /\
  (result h (extract_spectrum s2dfile parfile plot) w = inr tt ->
   length (products (trace h (extract_spectrum s2dfile parfile plot) w)) = 1) /\
  (truthy plot = false ->
   result h (extract_spectrum s2dfile parfile plot) w = inr tt ->
   saved "./" (final_world h (extract_spectrum s2dfile parfile plot) w)).
Proof.
  assert (Hsaved : forall x0 w0 sp3 w1,
             h (Step_run (<["use_source_posn" := VBool false]>
                            (<["override_extract1d" := parfile]>
                               (<["output_dir" := VStr "./"]>
                                  (<["save_results" := VBool true]> x0)))) s2dfile) w0
               = (inr sp3, w1) ->
             saved "./" w1).
  { intros x0 w0 sp3 w1 Hrun.
    eapply contract; [exact Hrun | apply configured_settings..]. }
  execute h;
    (split; [repeat constructor; apply configured_settings|]);
    (split; [repeat constructor; eauto|]);
    (split; [try discriminate; reflexivity|]);
    intros Hno Hret; try discriminate; eauto.
Qed.

(** *** Further properties of [extract_spectrum] *)

(** X1: the library calls come in the order of the text, each at most
    once: the call numbers of a trace are an initial part of 0 to 7.  So
    nothing is plotted before [run] has returned, [run] is not repeated,
    and [plt.savefig] comes last. *)
Theorem calls_in_source_order h w s2dfile parfile plot :
  map call_index (calls (trace h (extract_spectrum s2dfile parfile plot) w))
    `prefix_of` [0; 1; 2; 3; 4; 5; 6; 7].
Proof. execute h; eexists; reflexivity. Qed.

(** X2: a plotting invocation that returns has made exactly these calls:
    the step built, configured and run, a 10 by 6 figure, the plot of the
    two columns, the product's file name as title, ['micron'] and ['Jy']
    as axis labels, and the figure saved under the replaced name. *)
Theorem plotting_run_calls h w s2dfile parfile plot :
  truthy plot = true ->
  result h (extract_spectrum s2dfile parfile plot) w = inr tt ->
  exists x0 sp3 w1 s0 wavelength flux f,
    products (trace h (extract_spectrum s2dfile parfile plot) w) = [(sp3, w1)] /\
    spec sp3 !! 0 = Some s0 /\
    spec_table s0 !! "WAVELENGTH" = Some wavelength /\
    spec_table s0 !! "FLUX" = Some flux /\
    filename (meta sp3) = VStr f /\
    calls (trace h (extract_spectrum s2dfile parfile plot) w) =
    [ Extract1dStep_new;
      Step_run (<["use_source_posn" := VBool false]>
                  (<["override_extract1d" := parfile]>
                     (<["output_dir" := VStr "./"]>
                        (<["save_results" := VBool true]> x0)))) s2dfile;
      plt_figure [10; 6]%Z;
      plt_plot wavelength flux;
      plt_title (VStr f);
      plt_xlabel (VStr "micron");
      plt_ylabel (VStr "Jy");
      plt_savefig (VStr (str_replace f "_extract1dstep.fits" ".png")) ].
Proof.
  intros Hplot. execute h; intros Hret; try discriminate Hret.
  eexists _, _, _, _, _, _, _. repeat split; eauto.
Qed.

(** X3: a product without spectrum.  [spec[0]] raises [IndexError] once
    the figure is open: nothing is plotted, nothing is saved, and when no
    library call fails the function ends on [IndexError] after three
    calls. *)
Theorem empty_product_index_error h w s2dfile parfile plot sp3 w1 :
  truthy plot = true ->
  products (trace h (extract_spectrum s2dfile parfile plot) w) = [(sp3, w1)] ->
  spec sp3 !! 0 = None ->
  plots (trace h (extract_spectrum s2dfile parfile plot) w) = [] /\
  savefigs (trace h (extract_spectrum s2dfile parfile plot) w) = [] /\
  (Forall (fun ev => failed ev = None)
          (trace h (extract_spectrum s2dfile parfile plot) w) ->
   result h (extract_spectrum s2dfile parfile plot) w = inl IndexError /\
   map call_index (calls (trace h (extract_spectrum s2dfile parfile plot) w))
   = [0; 1; 2]).
Proof.
  intros Hplot Hprod Hnone. revert Hprod.
  execute h; intros Hprod; try discriminate Hprod;
    injection Hprod as -> ->; try congruence;
    (split; [reflexivity|split; [reflexivity|]]);
    intros Hok; try (split; reflexivity);
    exfalso; repeat (apply Forall_cons in Hok as [? Hok]); discriminate.
Qed.

(** X4: a spectral table without one of the two columns.  The missing
    name is raised as [KeyError], ['WAVELENGTH'] first when both are
    missing; nothing is plotted or saved. *)
Theorem missing_column_key_error h w s2dfile parfile plot sp3 w1 s0 :
  truthy plot = true ->
  products (trace h (extract_spectrum s2dfile parfile plot) w) = [(sp3, w1)] ->
  spec sp3 !! 0 = Some s0 ->
  (spec_table s0 !! "WAVELENGTH" = None \/ spec_table s0 !! "FLUX" = None) ->
  plots (trace h (extract_spectrum s2dfile parfile plot) w) = [] /\
  savefigs (trace h (extract_spectrum s2dfile parfile plot) w) = [] /\
  (Forall (fun ev => failed ev = None)
          (trace h (extract_spectrum s2dfile parfile plot) w) ->
   result h (extract_spectrum s2dfile parfile plot) w =
   inl (KeyError (match spec_table s0 !! "WAVELENGTH" with
                  | None => "WAVELENGTH"
                  | Some _ => "FLUX"
                  end))).
Proof.
  intros Hplot Hprod Hs0 Hmiss. revert Hprod.
  execute h; intros Hprod; try discriminate Hprod;
    injection Hprod as -> ->;
    repeat match goal with
           | H1 : ?x = Some _, H2 : ?x = Some _ |- _ =>
               rewrite H1 in H2; injection H2 as ->
           | H1 : ?x = Some _, H2 : ?x = None |- _ =>
               rewrite H1 in H2; discriminate H2
           end;
    try (destruct Hmiss; congruence);
    (split; [reflexivity|split; [reflexivity|]]);
    intros Hok;
    repeat match goal with
           | H : spec_table _ !! _ = _ |- _ => rewrite H
           end;
    try reflexivity;
    exfalso; repeat (apply Forall_cons in Hok as [? Hok]); discriminate.
Qed.


(** X7: after a [run] that returned, [pyplot] is called exactly when
    [plot] is true in the sense of [if plot:]: a non-empty string or a
    non-zero number plots, [None], [0], [''] and [[]] do not. *)
Theorem plots_iff_truthy h w s2dfile parfile plot sp3 w1 :
  products (trace h (extract_spectrum s2dfile parfile plot) w) = [(sp3, w1)] ->
  existsb (fun ev => is_plot_call (ev_call ev))
          (trace h (extract_spectrum s2dfile parfile plot) w)
  = truthy plot.
Proof.
  execute h; intros Hprod; try discriminate Hprod; reflexivity.
Qed.

(** X6: a product named [base ++ "_extract1dstep.fits"], the pattern being
    nowhere else in the name, has its figure saved as [base ++ ".png"]. *)
Theorem plot_file_name_png h w s2dfile parfile plot sp3 w1 base :
  truthy plot = true ->
  products (trace h (extract_spectrum s2dfile parfile plot) w) = [(sp3, w1)] ->
  filename (meta sp3) = VStr (base +:+ "_extract1dstep.fits") ->
  contains (chop (base +:+ "_extract1dstep.fits")) "_extract1dstep.fits" = false ->
  Forall (eq (VStr (base +:+ ".png")))
         (savefigs (trace h (extract_spectrum s2dfile parfile plot) w)) /\
  (result h (extract_spectrum s2dfile parfile plot) w = inr tt ->
   savefigs (trace h (extract_spectrum s2dfile parfile plot) w)
   = [VStr (base +:+ ".png")]).
Proof.
  intros Hplot Hprod Hname Hno.
  assert (Hpng : str_replace (base +:+ "_extract1dstep.fits") "_extract1dstep.fits" ".png"
                 = base +:+ ".png").
  { apply str_replace_suffix; [discriminate|]. by apply only_at_end. }
  unfold str_replace in Hpng. revert Hprod.
  execute h; intros Hprod; try discriminate Hprod;
    injection Hprod as -> ->;
    (split; [|try discriminate; intros _]);
    repeat constructor; congruence.
Qed.

(** With a false flag no [pyplot] call is made. *)
Lemma falsy_never_plots h w s2dfile parfile plot :
  truthy plot = false ->
  Forall (fun ev => is_plot_call (ev_call ev) = false)
         (trace h (extract_spectrum s2dfile parfile plot) w) /\
  savefigs (trace h (extract_spectrum s2dfile parfile plot) w) = [].
Proof. intros Hplot. execute h; split; repeat constructor. Qed.

(** [run] gets the input and the parameter file of the caller. *)
Lemma run_gets_arguments h w s2dfile parfile plot :
  Forall (fun '(x1d, input) =>
            input = s2dfile /\ x1d !! "override_extract1d" = Some parfile)
         (runs (trace h (extract_spectrum s2dfile parfile plot) w)).
Proof.
  execute h; repeat constructor; apply configured_settings.
Qed.

End Extraction.

(** ** The argument parser *)

Section Parsing.

Import argparse.

Implicit Types (tbl : list (string * Argument)) (a : Argument) (st : State).

(** The options an argument string with a glued argument stands for are
    the option itself and single-character options of the parser. *)
Lemma unbundle_actions tbl e : forall a o pre last v,
  unbundle tbl a o e = inr (pre, last, v) ->
  forall a', a' ∈ (pre ++ [last])%list ->
    a' = a \/ exists c, lookup_option tbl (String "-" (String c "")) = Some a'.
Proof.
  induction e as [|c tail IH]; intros a o pre last v Hu a' Hin.
  - cbn in Hu. destruct (takes_value a); [|destruct (single_dash o); discriminate].
    injection Hu as <- <- <-. apply list_elem_of_singleton in Hin. by left.
  - cbn [unbundle] in Hu. destruct (takes_value a).
    { injection Hu as <- <- <-. apply list_elem_of_singleton in Hin. by left. }
    destruct (negb (single_dash o)); [discriminate|].
    destruct (lookup_option tbl (String "-" (String c ""))) as [a1|] eqn:Hl; [|discriminate].
    destruct tail as [|c' tail'].
    + injection Hu as <- <- <-.
      apply elem_of_cons in Hin as [->|Hin]; [by left|].
      apply list_elem_of_singleton in Hin as ->. right. eauto.
    + destruct (unbundle tbl a1 _ (String c' tail')) as [?|[[pre1 last1] v1]] eqn:Hu1;
        [discriminate|].
      injection Hu as <- <- <-.
      apply elem_of_cons in Hin as [->|Hin]; [by left|].
      destruct (IH _ _ _ _ _ Hu1 _ Hin) as [->|?]; [right; eauto|by right].
Qed.

Lemma take_actions_invariant (Q : Argument -> Prop) (P : State -> Prop) :
  (forall a v st st', Q a -> P st -> take_action a v st = inr st' -> P st') ->
  forall pre st st',
    (forall a, a ∈ pre -> Q a) -> P st -> take_actions pre st = inr st' -> P st'.
Proof.
  intros Hstep. induction pre as [|a pre IH]; intros st st' HQ HP Ht; cbn in Ht.
  - congruence.
  - destruct (take_action a None st) as [?|st1] eqn:H1; [discriminate|].
    eapply IH; [| |exact Ht].
    + intros a0 Ha0. apply HQ. by right.
    + eapply Hstep; [apply HQ; by left|exact HP|exact H1].
Qed.

(** A property of the parse state kept by every action of an option that
    is on the command line, or is a single-character option, holds at the
    end of the consuming loop. *)
Lemma consume_invariant tbl (Q : Argument -> Prop) (P : State -> Prop) :
  (forall a v st st', Q a -> P st -> take_action a v st = inr st' -> P st') ->
  (forall c a, lookup_option tbl (String "-" (String c "")) = Some a -> Q a) ->
  forall ls st extras st' extras',
    (forall a o e, LOpt a o e ∈ ls -> Q a) -> P st ->
    consume tbl ls st extras = inr (st', extras') -> P st'.
Proof.
  intros Hstep Hshort ls.
  induction ls as [ls IH] using (induction_ltof1 _ (@length Lexeme)).
  unfold ltof in IH.
  intros st extras st' extras' HQ HP Hc.
  destruct ls as [|l ls']; [cbn in Hc; congruence|].
  assert (Htail : forall a o e, LOpt a o e ∈ ls' -> Q a).
  { intros a o e Hin. eapply HQ. right. exact Hin. }
  destruct l as [s|a o explicit| s|]; cbn [consume] in Hc.
  - eapply (IH ls'); [cbn; lia|exact Htail|exact HP|exact Hc].
  - assert (Hres : forall pre last v,
               match explicit with
               | Some e => unbundle tbl a o e
               | None => inr ([], a, None)
               end = inr (pre, last, v) ->
               forall a', a' ∈ (pre ++ [last])%list -> Q a').
    { intros pre last v Hr a' Hin.
      assert (Ha : Q a) by (eapply HQ; left).
      destruct explicit as [e|].
      - destruct (unbundle_actions _ _ _ _ _ _ _ Hr _ Hin) as [->|[c Hl]]; eauto.
      - injection Hr as <- <- <-. apply list_elem_of_singleton in Hin as ->. exact Ha. }
    destruct (match explicit with
              | Some e => unbundle tbl a o e
              | None => inr ([], a, None)
              end) as [?|[[pre last] v]]; [discriminate|].
    specialize (Hres _ _ _ eq_refl).
    assert (Hpre : forall a', a' ∈ pre -> Q a').
    { intros a' Hin. apply Hres. apply elem_of_app. by left. }
    assert (Hlast : Q last).
    { apply Hres. apply elem_of_app. right. by left. }
    destruct v as [v|].
    + destruct (take_actions pre st) as [?|st1] eqn:H1; [discriminate|].
      destruct (take_action last (Some v) st1) as [?|st2] eqn:H2; [discriminate|].
      eapply (IH ls'); [cbn; lia|exact Htail| |exact Hc].
      eapply Hstep; [exact Hlast| |exact H2].
      eapply take_actions_invariant; [exact Hstep|exact Hpre|exact HP|exact H1].
    + destruct (takes_value last).
      * destruct ls' as [|[v| | |] ls'']; try discriminate.
        destruct (take_actions pre st) as [?|st1] eqn:H1; [discriminate|].
        destruct (take_action last (Some v) st1) as [?|st2] eqn:H2; [discriminate|].
        eapply (IH ls''); [cbn; lia| | |exact Hc].
        -- intros a0 o0 e0 Hin. eapply Htail. right. exact Hin.
        -- eapply Hstep; [exact Hlast| |exact H2].
           eapply take_actions_invariant; [exact Hstep|exact Hpre|exact HP|exact H1].
      * destruct (take_actions (pre ++ [last])%list st) as [?|st1] eqn:H1; [discriminate|].
        eapply (IH ls'); [cbn; lia|exact Htail| |exact Hc].
        eapply take_actions_invariant; [exact Hstep|exact Hres|exact HP|exact H1].
  - eapply (IH ls'); [cbn; lia|exact Htail|exact HP|exact Hc].
  - eapply (IH ls'); [cbn; lia|exact Htail|exact HP|exact Hc].
Qed.

(** *** Where the options of a command line come from *)

Lemma lookup_option_elem tbl o a :
  lookup_option tbl o = Some a -> (o, a) ∈ tbl.
Proof.
  induction tbl as [|[o' a'] tbl IH]; cbn; [discriminate|].
  destruct (String.eqb_spec o' o) as [->|_].
  - intros [= ->]. by left.
  - intros H. right. by apply IH.
Qed.

Lemma get_option_tuples_elem tbl arg a o e :
  (a, o, e) ∈ get_option_tuples tbl arg -> (o, a) ∈ tbl.
Proof.
  unfold get_option_tuples.
  destruct arg as [|c0 [|c1 rest]]; [intros H; by apply elem_of_nil in H..|].
  destruct (Ascii.eqb c1 "-").
  - destruct (match split_eq (String c0 (String c1 rest)) with
              | Some (a0, b) => (a0, Some b)
              | None => (String c0 (String c1 rest), None)
              end) as [option_prefix explicit_arg].
    intros H. apply list_elem_of_In, in_flat_map in H as ([o' a'] & Hin & H).
    apply list_elem_of_In in Hin.
    destruct (startswith o' option_prefix); [|destruct H].
    destruct H as [[= -> -> _]|[]]. exact Hin.
  - intros H. apply list_elem_of_In, in_flat_map in H as ([o' a'] & Hin & H).
    apply list_elem_of_In in Hin.
    destruct (String.eqb o' _).
    + destruct H as [[= -> -> _]|[]]. exact Hin.
    + destruct (startswith o' _); [|destruct H].
      destruct H as [[= -> -> _]|[]]. exact Hin.
Qed.

Lemma parse_optional_elem tbl arg a o e :
  parse_optional tbl arg = inr (LOpt a o e) -> (o, a) ∈ tbl.
Proof.
  unfold parse_optional. destruct arg as [|c rest]; [discriminate|].
  destruct (negb (Ascii.eqb c "-")); [discriminate|].
  destruct (lookup_option tbl (String c rest)) as [a0|] eqn:Hl.
  { intros [= <- <- _]. by apply lookup_option_elem. }
  destruct rest as [|c1 rest]; [discriminate|].
  destruct (split_eq (String c (String c1 rest))) as [[o0 e0]|].
  - destruct (lookup_option tbl o0) as [a0|] eqn:Hl0.
    { intros [= -> -> _]. by apply lookup_option_elem. }
    destruct (get_option_tuples tbl _) as [|[[a1 o1] e1] [|? ?]] eqn:Ht; try discriminate.
    + destruct (negative_number _); [discriminate|]. destruct (has_space _); discriminate.
    + intros [= -> -> ->]. eapply get_option_tuples_elem. rewrite Ht. by left.
  - destruct (get_option_tuples tbl _) as [|[[a1 o1] e1] [|? ?]] eqn:Ht; try discriminate.
    + destruct (negative_number _); [discriminate|]. destruct (has_space _); discriminate.
    + intros [= -> -> ->]. eapply get_option_tuples_elem. rewrite Ht. by left.
Qed.

Lemma lex_elem tbl argv : forall ls a o e,
  lex tbl argv = inr ls -> LOpt a o e ∈ ls -> (o, a) ∈ tbl.
Proof.
  induction argv as [|arg argv IH]; intros ls a o e Hlex Hin; cbn in Hlex.
  - injection Hlex as <-. by apply elem_of_nil in Hin.
  - destruct (String.eqb arg "--").
    + injection Hlex as <-.
      apply elem_of_cons in Hin as [[=]|Hin].
      apply list_elem_of_fmap in Hin as (? & [=] & _).
    + destruct (parse_optional tbl arg) as [?|l] eqn:Hp; [discriminate|].
      destruct (lex tbl argv) as [?|ls'] eqn:Hl; [discriminate|].
      injection Hlex as <-.
      apply elem_of_cons in Hin as [<-|Hin].
      * by eapply parse_optional_elem.
      * by eapply IH.
Qed.

(** *** Which argument strings name an option *)

Lemma split_eq_app (s a b : string) :
  split_eq s = Some (a, b) -> s = a +:+ String "=" b.
Proof.
  revert a. induction s as [|c s IH]; intros a; cbn [split_eq]; [discriminate|].
  destruct (Ascii.eqb_spec c "=") as [->|_].
  - by intros [= <- <-].
  - destruct (split_eq s) as [[a' b']|]; [|discriminate].
    intros [= <- <-]. rewrite append_cons. f_equal. by apply IH.
Qed.

Lemma split_eq_startswith (s a b : string) :
  split_eq s = Some (a, b) -> startswith s a = true.
Proof. intros ->%split_eq_app. apply startswith_app. eauto. Qed.

(** The option strings a test selects, when there is exactly one. *)
Lemma matches_nil {A : Type} tbl (f : string -> bool) (g : string -> Argument -> A) :
  flat_map (fun '(o, a) => if f o then [g o a] else []) tbl = [] ->
  forall o a, (o, a) ∈ tbl -> f o = false.
Proof.
  induction tbl as [|[o' a'] tbl IH]; cbn [flat_map]; intros H o a Hin.
  - by apply elem_of_nil in Hin.
  - destruct (f o') eqn:Hf; [discriminate|].
    apply elem_of_cons in Hin as [[= -> ->]|Hin]; [exact Hf|by eapply IH].
Qed.

Lemma matches_singleton {A : Type} tbl (f : string -> bool)
    (g : string -> Argument -> A) x :
  flat_map (fun '(o, a) => if f o then [g o a] else []) tbl = [x] ->
  (exists o a, (o, a) ∈ tbl /\ f o = true /\ g o a = x) /\
  (forall o a, (o, a) ∈ tbl -> f o = true -> g o a = x).
Proof.
  induction tbl as [|[o' a'] tbl IH]; cbn [flat_map]; intros H; [discriminate|].
  destruct (f o') eqn:Hf'.
  - injection H as <- Hnil. split.
    + exists o', a'. split; [by left|done].
    + intros o a [[= -> ->]|Hin]%elem_of_cons Hf; [reflexivity|].
      rewrite (matches_nil _ _ _ Hnil _ _ Hin) in Hf. discriminate.
  - destruct (IH H) as [(o & a & Hin & Hf & Hg) Hall]. split.
    + exists o, a. split; [by right|done].
    + intros o0 a0 [[= -> ->]|Hin0]%elem_of_cons Hf0; [congruence|by eapply Hall].
Qed.

(** An argument string read as the option [o] through
    [_get_option_tuples] starts with an abbreviation of [o] that selects
    no other option string, or [o] is a single-dash option. *)
Lemma get_option_tuples_reads tbl arg a o e :
  get_option_tuples tbl arg = [(a, o, e)] ->
  (exists p,
      startswith arg p = true /\ startswith o p = true /\
      forall o' a', (o', a') ∈ tbl -> startswith o' p = true -> o' = o) \/
  (exists c0 c1,
      Ascii.eqb c1 "-" = false /\
      startswith o (String c0 (String c1 "")) = true).
Proof.
  unfold get_option_tuples. destruct arg as [|c0 [|c1 rest]]; [discriminate..|].
  destruct (Ascii.eqb c1 "-") eqn:Hc1; intros Ht.
  - left.
    destruct (match split_eq (String c0 (String c1 rest)) with
              | Some (a0, b) => (a0, Some b)
              | None => (String c0 (String c1 rest), None)
              end) as [p x] eqn:Hp.
    exists p.
    apply (matches_singleton _ (fun o => startswith o p) (fun o a => (a, o, x)))
      in Ht as [(o1 & a1 & _ & Hf & [= -> -> ->]) Hall].
    split; [|split; [exact Hf|]].
    + destruct (split_eq _) as [[p' x']|] eqn:Hs; injection Hp as <- <-;
        [by eapply split_eq_startswith|apply startswith_refl].
    + intros o' a' Hin Hf'. by injection (Hall _ _ Hin Hf').
  - right. exists c0, c1. split; [exact Hc1|].
    set (short := String c0 (String c1 "")). set (arg := String c0 (String c1 rest)).
    assert (Hshort : startswith arg short = true).
    { apply startswith_app. by exists rest. }
    assert (Hext : forall tbl',
               flat_map (fun '(o, a) =>
                           if String.eqb o short then [(a, o, Some rest)]
                           else if startswith o arg then [(a, o, None)] else []) tbl'
               = flat_map (fun '(o, a) =>
                             if String.eqb o short || startswith o arg
                             then [(a, o, if String.eqb o short then Some rest else None)]
                             else []) tbl').
    { intros tbl'. apply flat_map_ext. intros [o0 a0].
      destruct (String.eqb o0 short); [reflexivity|]. cbn [orb].
      destruct (startswith o0 arg); reflexivity. }
    rewrite Hext in Ht.
    apply (matches_singleton _ (fun o => String.eqb o short || startswith o arg)
             (fun o a => (a, o, if String.eqb o short then Some rest else None)))
      in Ht as [(o1 & a1 & _ & Hf & [= -> -> _]) _].
    apply orb_true_iff in Hf as [->%String.eqb_eq|Hf]; [apply startswith_refl|].
    by eapply startswith_trans.
Qed.

Lemma parse_optional_reads tbl arg a o e :
  parse_optional tbl arg = inr (LOpt a o e) ->
  startswith arg o = true \/
  (exists p,
      startswith arg p = true /\ startswith o p = true /\
      forall o' a', (o', a') ∈ tbl -> startswith o' p = true -> o' = o) \/
  (exists c0 c1,
      Ascii.eqb c1 "-" = false /\
      startswith o (String c0 (String c1 "")) = true).
Proof.
  unfold parse_optional. destruct arg as [|c rest]; [discriminate|].
  destruct (negb (Ascii.eqb c "-")); [discriminate|].
  destruct (lookup_option tbl (String c rest)) as [a0|] eqn:Hl.
  { intros [= <- <- _]. left. apply startswith_refl. }
  destruct rest as [|c1 rest]; [discriminate|].
  destruct (split_eq (String c (String c1 rest))) as [[o0 e0]|] eqn:Hs.
  - destruct (lookup_option tbl o0) as [a0|] eqn:Hl0.
    { intros [= -> -> _]. left. by eapply split_eq_startswith. }
    destruct (get_option_tuples tbl _) as [|[[a1 o1] e1] [|? ?]] eqn:Ht; try discriminate.
    + destruct (negative_number _); [discriminate|]. destruct (has_space _); discriminate.
    + intros [= -> -> ->]. right. by eapply get_option_tuples_reads.
  - destruct (get_option_tuples tbl _) as [|[[a1 o1] e1] [|? ?]] eqn:Ht; try discriminate.
    + destruct (negative_number _); [discriminate|]. destruct (has_space _); discriminate.
    + intros [= -> -> ->]. right. by eapply get_option_tuples_reads.
Qed.

Lemma lex_reads tbl argv : forall ls a o e,
  lex tbl argv = inr ls -> LOpt a o e ∈ ls ->
  exists arg, arg ∈ argv /\ parse_optional tbl arg = inr (LOpt a o e).
Proof.
  induction argv as [|arg argv IH]; intros ls a o e Hlex Hin; cbn in Hlex.
  - injection Hlex as <-. by apply elem_of_nil in Hin.
  - destruct (String.eqb arg "--").
    + injection Hlex as <-.
      apply elem_of_cons in Hin as [[=]|Hin].
      apply list_elem_of_fmap in Hin as (? & [=] & _).
    + destruct (parse_optional tbl arg) as [?|l] eqn:Hp; [discriminate|].
      destruct (lex tbl argv) as [?|ls'] eqn:Hl; [discriminate|].
      injection Hlex as <-.
      apply elem_of_cons in Hin as [<-|Hin].
      * exists arg. split; [by left|exact Hp].
      * destruct (IH _ _ _ _ eq_refl Hin) as (arg' & Hin' & Hp').
        exists arg'. split; [by right|exact Hp'].
Qed.

(** *** The driver's parser *)

Lemma parser_options o a :
  (o, a) ∈ option_string_actions parser ->
  a ∈ parser /\ o ∈ option_strings a.
Proof.
  cbn. intros H. repeat (apply elem_of_cons in H as [[= -> ->]|H]);
    [| | | | |by apply elem_of_nil in H];
    (split; [repeat constructor | cbn; repeat constructor]).
Qed.

Lemma parser_cases a :
  a ∈ parser ->
  a = arg_help \/ a = arg_s2dfile \/ a = arg_parfile \/ a = arg_save_plot.
Proof.
  intros H. unfold parser in H. cbn in H.
  repeat (apply elem_of_cons in H as [->|H]); [tauto..|by apply elem_of_nil in H].
Qed.

(** The only single-character option is [-h]. *)
Lemma parser_short_option c a :
  lookup_option (option_string_actions parser) (String "-" (String c "")) = Some a ->
  action a = Help.
Proof.
  intros H. apply lookup_option_elem, parser_options in H as [Hin Ho].
  apply parser_cases in Hin as [-> | [-> | [-> | ->]]]; [reflexivity|..];
    cbn in Ho; apply list_elem_of_singleton in Ho; discriminate.
Qed.

Lemma defaults_parser :
  defaults parser =
  <["save_plot" := VBool false]>
    (<["parfile" := VStr "miri_lrs_demo_extract1d.json"]> (<["s2dfile" := VNone]> ∅)).
Proof. reflexivity. Qed.

Lemma missing_required_parser (sn : gset string) :
  missing_required parser sn = false -> "--s2dfile" ∈ sn.
Proof.
  unfold missing_required, parser, ArgumentParser.
  cbn [app existsb required arg_help arg_s2dfile arg_parfile arg_save_plot name
       option_strings hd andb orb].
  case_bool_decide; [done|discriminate].
Qed.

Lemma given_spec d argv :
  given d argv = true <->
  exists ls a o e,
    lex (option_string_actions parser) argv = inr ls /\
    LOpt a o e ∈ ls /\ dest a = Some d.
Proof.
  unfold given. split.
  - destruct (lex _ argv) as [?|ls]; [discriminate|].
    intros H. apply existsb_exists in H as (l & Hin & Hl).
    destruct l as [|a o e| |]; try discriminate.
    apply bool_decide_eq_true in Hl. apply list_elem_of_In in Hin. eauto 10.
  - intros (ls & a & o & e & -> & Hin & Hd).
    apply existsb_exists. exists (LOpt a o e). split; [by apply list_elem_of_In|].
    by apply bool_decide_eq_true.
Qed.

(** The namespace of a successful parse has the three destinations and
    nothing else. *)
Lemma parse_args_dom argv args :
  parse_args parser argv = inr args ->
  dom args = ({["s2dfile"; "parfile"; "save_plot"]} : gset string).
Proof.
  unfold parse_args.
  destruct (lex _ argv) as [?|ls] eqn:Hlex; [discriminate|].
  destruct (consume _ ls _ []) as [?|[st extras]] eqn:Hc; [discriminate|].
  destruct (missing_required parser (seen st)); [discriminate|].
  destruct extras; [|discriminate]. intros [= <-].
  eapply (consume_invariant _ (fun a => a ∈ parser)
            (fun st => dom (namespace st) = {["s2dfile"; "parfile"; "save_plot"]}));
    [| | | |exact Hc].
  - intros a v st0 st1 Ha HP Ht.
    apply parser_cases in Ha as [-> | [-> | [-> | ->]]]; cbn in Ht;
      [discriminate|destruct v; [|discriminate]..|];
      injection Ht as <-; cbn; rewrite dom_insert_L, HP; set_solver.
  - intros c a Hl. by apply lookup_option_elem, parser_options in Hl as [? _].
  - intros a o e Hin. by eapply lex_elem, parser_options in Hin as [? _].
  - cbn [namespace]. rewrite defaults_parser, !dom_insert_L, dom_empty_L. set_solver.
Qed.

(** A destination that no argument string names keeps its default. *)
Lemma parse_args_default d argv args :
  parse_args parser argv = inr args ->
  given d argv = false ->
  args !! d = defaults parser !! d.
Proof.
  unfold parse_args. intros Hp Hg.
  destruct (lex _ argv) as [?|ls] eqn:Hlex; [discriminate|].
  destruct (consume _ ls _ []) as [?|[st extras]] eqn:Hc; [discriminate|].
  destruct (missing_required parser (seen st)); [discriminate|].
  destruct extras; [|discriminate]. injection Hp as <-.
  eapply (consume_invariant _ (fun a => action a = Help \/ dest a <> Some d)
            (fun st => namespace st !! d = defaults parser !! d));
    [| | | |exact Hc].
  - intros a v st0 st1 [Ha|Ha] HP Ht; unfold take_action in Ht.
    + rewrite Ha in Ht. discriminate.
    + destruct (action a); [destruct v; [|discriminate]| |discriminate];
        injection Ht as <-; cbn [namespace];
        (destruct (dest a) as [k|]; cbn [setattr]; [|exact HP]);
        (rewrite lookup_insert_ne; [exact HP|congruence]).
  - intros c a Hl. left. by eapply parser_short_option.
  - intros a o e Hin. right. intros Hd.
    assert (given d argv = true) by (apply given_spec; eauto 10). congruence.
  - reflexivity.
Qed.

(** A successful parse has seen [--s2dfile]. *)
Lemma parse_args_required argv args :
  parse_args parser argv = inr args -> given "s2dfile" argv = true.
Proof.
  unfold parse_args. intros Hp.
  destruct (lex _ argv) as [?|ls] eqn:Hlex; [discriminate|].
  destruct (consume _ ls _ []) as [?|[st extras]] eqn:Hc; [discriminate|].
  destruct (missing_required parser (seen st)) eqn:Hreq; [discriminate|].
  apply missing_required_parser in Hreq.
  assert (Hseen : forall n, n ∈ seen st -> exists a o e, LOpt a o e ∈ ls /\ name a = n).
  { eapply (consume_invariant _ (fun a => action a = Help \/ exists o e, LOpt a o e ∈ ls)
              (fun st => forall n, n ∈ seen st -> exists a o e, LOpt a o e ∈ ls /\ name a = n));
      [| | | |exact Hc].
    - intros a v st0 st1 [Ha|(o & e & Ha)] HP Ht; unfold take_action in Ht.
      + rewrite Ha in Ht. discriminate.
      + destruct (action a); [destruct v; [|discriminate]| |discriminate];
          injection Ht as <-; cbn; intros n [->%elem_of_singleton|Hn]%elem_of_union;
          eauto 10.
    - intros c a Hl. left. by eapply parser_short_option.
    - intros a o e Hin. right. eauto.
    - cbn [seen]. set_solver. }
  destruct (Hseen _ Hreq) as (a & o & e & Hin & Hn).
  apply given_spec. exists ls, a, o, e. split; [exact Hlex|split; [exact Hin|]].
  pose proof (lex_elem _ _ _ _ _ _ Hlex Hin) as Ha.
  apply parser_options in Ha as [Ha _].
  apply parser_cases in Ha as [-> | [-> | [-> | ->]]]; cbn in Hn; try discriminate.
  reflexivity.
Qed.

(** *** Command lines written in full *)

Lemma missing_required_seen (sn : gset string) :
  "--s2dfile" ∈ sn -> missing_required parser sn = false.
Proof.
  intros Hin. unfold missing_required, parser, ArgumentParser.
  cbn [app existsb required arg_help arg_s2dfile arg_parfile arg_save_plot name
       option_strings hd andb orb].
  by rewrite bool_decide_true.
Qed.

(** A string that does not start with a dash is a plain argument. *)
Lemma parse_optional_plain tbl f :
  startswith f "-" = false -> parse_optional tbl f = inr (LArg f).
Proof.
  destruct f as [|c f]; [reflexivity|]. intros H.
  cbn [startswith] in H. rewrite andb_true_r, Ascii.eqb_sym in H.
  unfold parse_optional. by rewrite H.
Qed.

Lemma plain_not_dashes f : startswith f "-" = false -> String.eqb f "--" = false.
Proof. intros H. apply String.eqb_neq. intros ->. vm_compute in H. discriminate. Qed.

Lemma get_values_plain f : startswith f "-" = false -> get_values f = VStr f.
Proof. intros H. unfold get_values. by rewrite plain_not_dashes. Qed.

Lemma lex_plain_cons tbl f argv :
  startswith f "-" = false ->
  lex tbl (f :: argv) =
  match lex tbl argv with inl e => inl e | inr ls => inr (LArg f :: ls) end.
Proof.
  intros H. cbn [lex]. by rewrite plain_not_dashes, parse_optional_plain.
Qed.

Lemma lex_option_cons tbl o a argv :
  String.eqb o "--" = false ->
  parse_optional tbl o = inr (LOpt a o None) ->
  lex tbl (o :: argv) =
  match lex tbl argv with inl e => inl e | inr ls => inr (LOpt a o None :: ls) end.
Proof. intros H1 H2. cbn [lex]. by rewrite H1, H2. Qed.

Lemma parse_s2dfile_only f :
  startswith f "-" = false ->
  parse_args parser ["--s2dfile"; f] = inr (<["s2dfile" := VStr f]> (defaults parser)).
Proof.
  intros Hf. unfold parse_args.
  rewrite (lex_option_cons _ _ arg_s2dfile) by reflexivity.
  rewrite lex_plain_cons by exact Hf.
  cbn [lex consume take_actions takes_value action arg_s2dfile].
  unfold take_action. cbn [action arg_s2dfile namespace seen setattr dest].
  rewrite get_values_plain by exact Hf.
  rewrite missing_required_seen by (cbn; set_solver).
  reflexivity.
Qed.

Lemma parse_all_three f g :
  startswith f "-" = false ->
  startswith g "-" = false ->
  parse_args parser ["--s2dfile"; f; "--parfile"; g; "--save_plot"] =
  inr (<["save_plot" := VBool true]>
         (<["parfile" := VStr g]> (<["s2dfile" := VStr f]> (defaults parser)))).
Proof.
  intros Hf Hg. unfold parse_args.
  rewrite (lex_option_cons _ _ arg_s2dfile) by reflexivity.
  rewrite lex_plain_cons by exact Hf.
  rewrite (lex_option_cons _ _ arg_parfile) by reflexivity.
  rewrite lex_plain_cons by exact Hg.
  rewrite (lex_option_cons _ _ arg_save_plot) by reflexivity.
  cbn [lex consume take_actions takes_value action arg_s2dfile arg_parfile
       arg_save_plot app].
  unfold take_action.
  cbn [action arg_s2dfile arg_parfile arg_save_plot namespace seen setattr dest].
  rewrite !get_values_plain by assumption.
  rewrite missing_required_seen by (cbn; set_solver).
  reflexivity.
Qed.

(** *** What ends up in the namespace *)

(** The plot flag is a boolean. *)
Lemma parse_args_flag argv args :
  parse_args parser argv = inr args ->
  exists b, args !! "save_plot" = Some (VBool b).
Proof.
  unfold parse_args. intros Hp.
  destruct (lex _ argv) as [?|ls] eqn:Hlex; [discriminate|].
  destruct (consume _ ls _ []) as [?|[st extras]] eqn:Hc; [discriminate|].
  destruct (missing_required parser (seen st)); [discriminate|].
  destruct extras; [|discriminate]. injection Hp as <-.
  eapply (consume_invariant _ (fun a => a ∈ parser)
            (fun st => exists b, namespace st !! "save_plot" = Some (VBool b)));
    [| | | |exact Hc].
  - intros a v st0 st1 Ha [b HP] Ht.
    apply parser_cases in Ha as [-> | [-> | [-> | ->]]]; cbn in Ht;
      [discriminate|destruct v; [|discriminate]..|];
      injection Ht as <-; cbn [namespace setattr]; [exists b..|exists true];
      by simplify_map_eq.
  - intros c a Hl. by apply lookup_option_elem, parser_options in Hl as [? _].
  - intros a o e Hin. by eapply lex_elem, parser_options in Hin as [? _].
  - exists false. cbn [namespace]. rewrite defaults_parser. by simplify_map_eq.
Qed.

(** The two paths are what [argparse] makes of one argument string each
    (the default of [--parfile] included). *)
Lemma parse_args_paths argv args :
  parse_args parser argv = inr args ->
  (exists v, args !! "s2dfile" = Some (get_values v)) /\
  (exists v, args !! "parfile" = Some (get_values v)).
Proof.
  unfold parse_args. intros Hp.
  destruct (lex _ argv) as [?|ls] eqn:Hlex; [discriminate|].
  destruct (consume _ ls _ []) as [?|[st extras]] eqn:Hc; [discriminate|].
  destruct (missing_required parser (seen st)) eqn:Hreq; [discriminate|].
  apply missing_required_parser in Hreq.
  destruct extras; [|discriminate]. injection Hp as <-.
  assert (Hinv : ("--s2dfile" ∈ seen st ->
                  exists v, namespace st !! "s2dfile" = Some (get_values v)) /\
                 (exists v, namespace st !! "parfile" = Some (get_values v))).
  { eapply (consume_invariant _ (fun a => a ∈ parser)
              (fun st => ("--s2dfile" ∈ seen st ->
                          exists v, namespace st !! "s2dfile" = Some (get_values v)) /\
                         (exists v, namespace st !! "parfile" = Some (get_values v))));
      [| | | |exact Hc].
    - intros a v st0 st1 Ha [HPs [p HPp]] Ht.
      apply parser_cases in Ha as [-> | [-> | [-> | ->]]]; cbn in Ht;
        [discriminate|destruct v as [v|]; [|discriminate]..|];
        injection Ht as <-; cbn [namespace seen setattr].
      + split; [intros _; exists v|exists p]; by simplify_map_eq.
      + split; [|exists v; by simplify_map_eq].
        intros [Hin%elem_of_singleton|Hin]%elem_of_union; [discriminate|].
        destruct (HPs Hin) as [s Hs]. exists s. by simplify_map_eq.
      + split; [|exists p; by simplify_map_eq].
        intros [Hin%elem_of_singleton|Hin]%elem_of_union; [discriminate|].
        destruct (HPs Hin) as [s Hs]. exists s. by simplify_map_eq.
    - intros c a Hl. by apply lookup_option_elem, parser_options in Hl as [? _].
    - intros a o e Hin. by eapply lex_elem, parser_options in Hin as [? _].
    - cbn [namespace seen]. split; [set_solver|].
      exists "miri_lrs_demo_extract1d.json". rewrite defaults_parser. by simplify_map_eq. }
  destruct Hinv as [Hs Hpf]. split; [by apply Hs|exact Hpf].
Qed.

(** One round of the consuming loop leaves the rest of the command line,
    less the argument a [store] option took. *)
Lemma consume_step tbl l ls st extras r :
  consume tbl (l :: ls) st extras = inr r ->
  exists st' extras' rest,
    consume tbl rest st' extras' = inr r /\
    (rest = ls \/ exists v, ls = LArg v :: rest).
Proof.
  destruct l as [s|a o explicit|s|]; cbn [consume]; intros Hc; [by eauto 10| |by eauto 10..].
  destruct (match explicit with
            | Some e => unbundle tbl a o e
            | None => inr ([], a, None)
            end) as [?|[[pre last] [v|]]]; [discriminate| |].
  - destruct (take_actions pre st) as [?|st1]; [discriminate|].
    destruct (take_action last (Some v) st1) as [?|st2]; [discriminate|]. eauto 10.
  - destruct (takes_value last).
    + destruct ls as [|[v| | |] ls']; try discriminate.
      destruct (take_actions pre st) as [?|st1]; [discriminate|].
      destruct (take_action last (Some v) st1) as [?|st2]; [discriminate|]. eauto 10.
    + destruct (take_actions (pre ++ [last])%list st) as [?|st1]; [discriminate|].
      eauto 10.
Qed.

Lemma flag_kept ls st extras st' extras' :
  (forall a o e, LOpt a o e ∈ ls -> (o, a) ∈ option_string_actions parser) ->
  namespace st !! "save_plot" = Some (VBool true) ->
  consume (option_string_actions parser) ls st extras = inr (st', extras') ->
  namespace st' !! "save_plot" = Some (VBool true).
Proof.
  intros Hls HP Hc.
  eapply (consume_invariant _ (fun a => a ∈ parser)
            (fun st => namespace st !! "save_plot" = Some (VBool true)));
    [| | |exact HP|exact Hc].
  - intros a v st0 st1 Ha HP0 Ht.
    apply parser_cases in Ha as [-> | [-> | [-> | ->]]]; cbn in Ht;
      [discriminate|destruct v; [|discriminate]..|];
      injection Ht as <-; cbn [namespace setattr]; by simplify_map_eq.
  - intros c a Hl. by apply lookup_option_elem, parser_options in Hl as [? _].
  - intros a o e Hin. by apply Hls, parser_options in Hin as [? _].
Qed.

(** A [--save_plot] on an accepted command line sets the flag. *)
Lemma flag_set ls : forall st extras st' extras',
  (forall a o e, LOpt a o e ∈ ls -> (o, a) ∈ option_string_actions parser) ->
  (exists o e, LOpt arg_save_plot o e ∈ ls) ->
  consume (option_string_actions parser) ls st extras = inr (st', extras') ->
  namespace st' !! "save_plot" = Some (VBool true).
Proof.
  induction ls as [ls IH] using (induction_ltof1 _ (@length Lexeme)).
  unfold ltof in IH. intros st extras st' extras' Hls (o & e & Hin) Hc.
  destruct ls as [|l ls]; [by apply elem_of_nil in Hin|].
  apply elem_of_cons in Hin as [<-|Hin].
  - assert (Ho : o = "--save_plot").
    { assert (Hoa : (o, arg_save_plot) ∈ option_string_actions parser)
        by (eapply Hls; left).
      apply parser_options in Hoa as [_ Hoa]. by apply list_elem_of_singleton in Hoa. }
    subst o. destruct e as [[|c e]|]; [cbn in Hc; discriminate..|].
    cbn [consume takes_value action arg_save_plot take_actions app] in Hc.
    unfold take_action in Hc.
    cbn [action arg_save_plot dest setattr name option_strings hd] in Hc.
    eapply flag_kept; [| |exact Hc]; [|cbn [namespace]; by simplify_map_eq].
    intros a o e Ha. eapply Hls. right. exact Ha.
  - destruct (consume_step _ _ _ _ _ _ Hc) as (st1 & extras1 & rest & Hrest & Hr).
    assert (Hsub : forall x, x ∈ rest -> x ∈ ls).
    { destruct Hr as [->|[v ->]]; [done|]. intros x Hx. by right. }
    eapply (IH rest); [| |eexists _, _|exact Hrest].
    + destruct Hr as [->|[v ->]]; cbn; lia.
    + intros a0 o0 e0 Ha. eapply Hls. right. by apply Hsub.
    + destruct Hr as [->|[v ->]]; [exact Hin|].
      apply elem_of_cons in Hin as [[=]|Hin]. exact Hin.
Qed.

(** The plot flag tells whether [--save_plot] was given. *)
Lemma parse_args_flag_given argv args :
  parse_args parser argv = inr args ->
  args !! "save_plot" = Some (VBool (given "save_plot" argv)).
Proof.
  intros Hp. destruct (given "save_plot" argv) eqn:Hg.
  - apply given_spec in Hg as (ls & a & o & e & Hlex & Hin & Hd).
    unfold parse_args in Hp. rewrite Hlex in Hp.
    destruct (consume _ ls _ []) as [?|[st extras]] eqn:Hc; [discriminate|].
    destruct (missing_required parser (seen st)); [discriminate|].
    destruct extras; [|discriminate]. injection Hp as <-.
    assert (Hls : forall a o e, LOpt a o e ∈ ls -> (o, a) ∈ option_string_actions parser)
      by (intros; by eapply lex_elem).
    assert (a = arg_save_plot) as ->.
    { pose proof (Hls _ _ _ Hin) as Ha. apply parser_options in Ha as [Ha _].
      apply parser_cases in Ha as [-> | [-> | [-> | ->]]]; by try discriminate. }
    eapply flag_set; eauto.
  - rewrite (parse_args_default _ _ _ Hp Hg), defaults_parser. by simplify_map_eq.
Qed.

(** *** Option strings of the driver on the command line *)

Ltac decide_chars :=
  cbn [startswith] in *;
  repeat match goal with
         | H : context [Ascii.eqb ?x ?y] |- _ =>
             destruct (Ascii.eqb_spec x y); [subst|]; cbn [andb] in H
         end;
  try discriminate; try reflexivity.

(** An abbreviation of [--parfile] that [--help] does not share has the
    [p]; one of [--save_plot] that [--s2dfile] does not share has the [a]. *)
Lemma abbreviates_parfile p :
  startswith "--parfile" p = true -> startswith "--help" p = false ->
  startswith p "--p" = true.
Proof. intros H1 H2. destruct p as [|a [|b [|c p]]]; decide_chars. Qed.

Lemma abbreviates_save_plot p :
  startswith "--save_plot" p = true -> startswith "--s2dfile" p = false ->
  startswith p "--sa" = true.
Proof. intros H1 H2. destruct p as [|a [|b [|c [|d p]]]]; decide_chars. Qed.

Lemma parser_option_strings o a :
  (o, a) ∈ option_string_actions parser ->
  (dest a = Some "parfile" -> o = "--parfile") /\
  (dest a = Some "save_plot" -> o = "--save_plot") /\
  (dest a = Some "s2dfile" -> o = "--s2dfile").
Proof.
  cbn. intros H. repeat (apply elem_of_cons in H as [[= -> ->]|H]);
    [| | | | |by apply elem_of_nil in H]; cbn; repeat split; done.
Qed.

Lemma long_option_not_short c0 c1 o :
  startswith o "--" = true -> Ascii.eqb c1 "-" = false ->
  startswith o (String c0 (String c1 "")) = false.
Proof.
  intros Ho Hc. destruct o as [|a [|b o]]; cbn [startswith] in *.
  - discriminate Ho.
  - rewrite andb_false_r in Ho. discriminate Ho.
  - apply andb_true_iff in Ho as [_ Ho]. rewrite andb_true_r in Ho.
    apply Ascii.eqb_eq in Ho as <-. rewrite Hc. cbn [andb]. apply andb_false_r.
Qed.

(** An argument string read as [--parfile] starts with [--p]; one read as
    [--save_plot] starts with [--sa]. *)
Lemma reads_parfile arg a o e :
  parse_optional (option_string_actions parser) arg = inr (LOpt a o e) ->
  dest a = Some "parfile" -> startswith arg "--p" = true.
Proof.
  intros Hp Hd. pose proof (parse_optional_elem _ _ _ _ _ Hp) as Hin.
  apply parser_option_strings in Hin as (Ho & _ & _). specialize (Ho Hd) as ->.
  apply parse_optional_reads in Hp as [H|[(p & Harg & Hop & Huniq)|(c0 & c1 & Hc & H)]].
  - by eapply startswith_trans.
  - eapply startswith_trans; [exact Harg|]. apply abbreviates_parfile; [exact Hop|].
    destruct (startswith "--help" p) eqn:Hh; [|reflexivity].
    discriminate (Huniq "--help" arg_help); [|exact Hh].
    cbn. by right; left.
  - by rewrite long_option_not_short in H.
Qed.

Lemma reads_save_plot arg a o e :
  parse_optional (option_string_actions parser) arg = inr (LOpt a o e) ->
  dest a = Some "save_plot" -> startswith arg "--sa" = true.
Proof.
  intros Hp Hd. pose proof (parse_optional_elem _ _ _ _ _ Hp) as Hin.
  apply parser_option_strings in Hin as (_ & Ho & _). specialize (Ho Hd) as ->.
  apply parse_optional_reads in Hp as [H|[(p & Harg & Hop & Huniq)|(c0 & c1 & Hc & H)]].
  - by eapply startswith_trans.
  - eapply startswith_trans; [exact Harg|]. apply abbreviates_save_plot; [exact Hop|].
    destruct (startswith "--s2dfile" p) eqn:Hh; [|reflexivity].
    discriminate (Huniq "--s2dfile" arg_s2dfile); [|exact Hh].
    cbn. by right; right; left.
  - by rewrite long_option_not_short in H.
Qed.

Lemma given_reads d argv :
  given d argv = true ->
  exists arg a o e,
    arg ∈ argv /\ dest a = Some d /\
    parse_optional (option_string_actions parser) arg = inr (LOpt a o e).
Proof.
  intros (ls & a & o & e & Hlex & Hin & Hd)%given_spec.
  destruct (lex_reads _ _ _ _ _ _ Hlex Hin) as (arg & Harg & Hp). eauto 10.
Qed.

(** No argument string starting with [--p]: [--parfile] is not given. *)
Lemma not_given_parfile argv :
  Forall (fun arg => startswith arg "--p" = false) argv ->
  given "parfile" argv = false.
Proof.
  intros Hall. destruct (given "parfile" argv) eqn:Hg; [|reflexivity].
  apply given_reads in Hg as (arg & a & o & e & Hin & Hd & Hp).
  rewrite Forall_forall in Hall. specialize (Hall _ Hin).
  by rewrite (reads_parfile _ _ _ _ Hp Hd) in Hall.
Qed.

(** No argument string starting with [--sa]: [--save_plot] is not given. *)
Lemma not_given_save_plot argv :
  Forall (fun arg => startswith arg "--sa" = false) argv ->
  given "save_plot" argv = false.
Proof.
  intros Hall. destruct (given "save_plot" argv) eqn:Hg; [|reflexivity].
  apply given_reads in Hg as (arg & a & o & e & Hin & Hd & Hp).
  rewrite Forall_forall in Hall. specialize (Hall _ Hin).
  by rewrite (reads_save_plot _ _ _ _ Hp Hd) in Hall.
Qed.

(** *** How a parse fails *)

Lemma parse_optional_error tbl arg err :
  parse_optional tbl arg = inl err -> err = usage_error.
Proof.
  unfold parse_optional. destruct arg as [|c rest]; [discriminate|].
  destruct (negb (Ascii.eqb c "-")); [discriminate|].
  destruct (lookup_option tbl (String c rest)); [discriminate|].
  destruct rest as [|c1 rest]; [discriminate|].
  destruct (match split_eq (String c (String c1 rest)) with
            | Some (o, e) =>
                match lookup_option tbl o with
                | Some a => Some (LOpt a o (Some e))
                | None => None
                end
            | None => None
            end); [discriminate|].
  destruct (get_option_tuples tbl _) as [|[[a1 o1] e1] [|? ?]].
  - destruct (negative_number _); [discriminate|]. destruct (has_space _); discriminate.
  - discriminate.
  - by intros [= <-].
Qed.

Lemma lex_error tbl argv err : lex tbl argv = inl err -> err = usage_error.
Proof.
  induction argv as [|arg argv IH]; cbn [lex]; [discriminate|].
  destruct (String.eqb arg "--"); [discriminate|].
  destruct (parse_optional tbl arg) as [e|l] eqn:Hp.
  - intros [= <-]. by eapply parse_optional_error.
  - destruct (lex tbl argv); [|discriminate]. intros [= <-]. by apply IH.
Qed.

Lemma unbundle_error tbl e : forall a o err,
  unbundle tbl a o e = inl err -> err = usage_error.
Proof.
  induction e as [|c tail IH]; intros a o err; cbn [unbundle].
  - destruct (takes_value a); [discriminate|].
    destruct (negb (single_dash o)); by intros [= <-].
  - destruct (takes_value a); [discriminate|].
    destruct (negb (single_dash o)); [by intros [= <-]|].
    destruct (lookup_option tbl _) as [a1|]; [|by intros [= <-]].
    destruct tail as [|c' tail']; [discriminate|].
    destruct (unbundle tbl a1 _ (String c' tail')) as [e1|[[pre1 last1] v1]] eqn:Hu;
      [|discriminate].
    intros [= <-]. by eapply IH.
Qed.

Lemma take_action_error a v st err :
  take_action a v st = inl err -> err = SystemExit 0 \/ err = usage_error.
Proof.
  unfold take_action. destruct (action a); [destruct v| |]; intros [= <-]; eauto.
Qed.

Lemma take_actions_error pre : forall st err,
  take_actions pre st = inl err -> err = SystemExit 0 \/ err = usage_error.
Proof.
  induction pre as [|a pre IH]; intros st err; cbn [take_actions]; [discriminate|].
  destruct (take_action a None st) as [e|st1] eqn:Ht.
  - intros [= <-]. by eapply take_action_error.
  - apply IH.
Qed.

Lemma consume_error tbl ls : forall st extras err,
  consume tbl ls st extras = inl err -> err = SystemExit 0 \/ err = usage_error.
Proof.
  induction ls as [ls IH] using (induction_ltof1 _ (@length Lexeme)).
  unfold ltof in IH. intros st extras err.
  destruct ls as [|[s|a o explicit|s|] ls]; cbn [consume]; [discriminate| | | |];
    try (apply IH; cbn; lia).
  destruct (match explicit with
            | Some e => unbundle tbl a o e
            | None => inr ([], a, None)
            end) as [e|[[pre last] [v|]]] eqn:Hres.
  - intros [= <-]. right. destruct explicit; [by eapply unbundle_error|discriminate].
  - destruct (take_actions pre st) as [e|st1] eqn:H1;
      [intros [= <-]; by eapply take_actions_error|].
    destruct (take_action last (Some v) st1) as [e|st2] eqn:H2;
      [intros [= <-]; by eapply take_action_error|].
    apply IH. cbn. lia.
  - destruct (takes_value last).
    + destruct ls as [|[v| | |] ls']; try (intros [= <-]; by right).
      destruct (take_actions pre st) as [e|st1] eqn:H1;
        [intros [= <-]; by eapply take_actions_error|].
      destruct (take_action last (Some v) st1) as [e|st2] eqn:H2;
        [intros [= <-]; by eapply take_action_error|].
      apply IH. cbn. lia.
    + destruct (take_actions (pre ++ [last])%list st) as [e|st1] eqn:H1;
        [intros [= <-]; by eapply take_actions_error|].
      apply IH. cbn. lia.
Qed.

(** A command line is turned down with exit status 0 or 2. *)
Lemma parse_args_error p argv err :
  parse_args p argv = inl err -> err = SystemExit 0 \/ err = SystemExit 2.
Proof.
  unfold parse_args.
  destruct (lex _ argv) as [e|ls] eqn:Hlex.
  { intros [= <-]. right. by eapply lex_error. }
  destruct (consume _ ls _ []) as [e|[st extras]] eqn:Hc.
  { intros [= <-]. by eapply consume_error. }
  destruct (missing_required p (seen st)); [intros [= <-]; by right|].
  destruct extras; [discriminate|]. intros [= <-]. by right.
Qed.

(** [-h] or [--help] at the head of a command line that can be read. *)
Lemma parse_args_help argv ls :
  lex (option_string_actions parser) argv = inr ls ->
  parse_args parser ("-h" :: argv) = inl (SystemExit 0) /\
  parse_args parser ("--help" :: argv) = inl (SystemExit 0).
Proof.
  intros Hlex. unfold parse_args. split.
  - rewrite (lex_option_cons _ _ arg_help) by reflexivity. rewrite Hlex. reflexivity.
  - rewrite (lex_option_cons _ _ arg_help) by reflexivity. rewrite Hlex. reflexivity.
Qed.

(** *** A command line without or with several copies of an option *)

Lemma abbreviates_s2dfile p :
  startswith "--s2dfile" p = true -> startswith "--save_plot" p = false ->
  startswith p "--s2" = true.
Proof. intros H1 H2. destruct p as [|a [|b [|c [|d p]]]]; decide_chars. Qed.

(** An argument string read as [--s2dfile] starts with [--s2]. *)
Lemma reads_s2dfile arg a o e :
  parse_optional (option_string_actions parser) arg = inr (LOpt a o e) ->
  dest a = Some "s2dfile" -> startswith arg "--s2" = true.
Proof.
  intros Hp Hd. pose proof (parse_optional_elem _ _ _ _ _ Hp) as Hin.
  apply parser_option_strings in Hin as (_ & _ & Ho). specialize (Ho Hd) as ->.
  apply parse_optional_reads in Hp as [H|[(p & Harg & Hop & Huniq)|(c0 & c1 & Hc & H)]].
  - by eapply startswith_trans.
  - eapply startswith_trans; [exact Harg|]. apply abbreviates_s2dfile; [exact Hop|].
    destruct (startswith "--save_plot" p) eqn:Hh; [|reflexivity].
    discriminate (Huniq "--save_plot" arg_save_plot); [|exact Hh].
    cbn. by do 4 right; left.
  - by rewrite long_option_not_short in H.
Qed.

Lemma not_given_s2dfile argv :
  Forall (fun arg => startswith arg "--s2" = false) argv ->
  given "s2dfile" argv = false.
Proof.
  intros Hall. destruct (given "s2dfile" argv) eqn:Hg; [|reflexivity].
  apply given_reads in Hg as (arg & a & o & e & Hin & Hd & Hp).
  rewrite Forall_forall in Hall. specialize (Hall _ Hin).
  by rewrite (reads_s2dfile _ _ _ _ Hp Hd) in Hall.
Qed.

(** One round of the consuming loop, with what it leaves over. *)
Lemma consume_round tbl l ls st extras r :
  consume tbl (l :: ls) st extras = inr r ->
  exists st' k rest,
    consume tbl rest st' (extras ++ k)%list = inr r /\
    (rest = ls \/ exists v, ls = LArg v :: rest) /\
    (l = LDashes -> k <> []).
Proof.
  destruct l as [s|a o explicit|s|]; cbn [consume]; intros Hc.
  - exists st, [s], ls. split; [exact Hc|]. split; [by left|discriminate].
  - assert (Hk : forall st' rest,
               consume tbl rest st' extras = inr r ->
               consume tbl rest st' (extras ++ [])%list = inr r)
      by (intros; by rewrite app_nil_r).
    destruct (match explicit with
              | Some e => unbundle tbl a o e
              | None => inr ([], a, None)
              end) as [?|[[pre last] [v|]]]; [discriminate| |].
    + destruct (take_actions pre st) as [?|st1]; [discriminate|].
      destruct (take_action last (Some v) st1) as [?|st2]; [discriminate|].
      exists st2, [], ls. split; [by apply Hk|]. split; [by left|discriminate].
    + destruct (takes_value last).
      * destruct ls as [|[v| | |] ls']; try discriminate.
        destruct (take_actions pre st) as [?|st1]; [discriminate|].
        destruct (take_action last (Some v) st1) as [?|st2]; [discriminate|].
        exists st2, [], ls'. split; [by apply Hk|]. split; [right; eauto|discriminate].
      * destruct (take_actions (pre ++ [last])%list st) as [?|st1]; [discriminate|].
        exists st1, [], ls. split; [by apply Hk|]. split; [by left|discriminate].
  - exists st, [s], ls. split; [exact Hc|]. split; [by left|discriminate].
  - exists st, ["--"], ls. split; [exact Hc|]. split; [by left|discriminate].
Qed.

(** What is left over stays left over, and a [--] is left over. *)
Lemma consume_leftovers tbl ls : forall st extras st' extras',
  consume tbl ls st extras = inr (st', extras') ->
  extras <> [] \/ LDashes ∈ ls -> extras' <> [].
Proof.
  induction ls as [ls IH] using (induction_ltof1 _ (@length Lexeme)).
  unfold ltof in IH. intros st extras st' extras' Hc Hleft.
  destruct ls as [|l ls].
  - cbn in Hc. injection Hc as <- <-.
    destruct Hleft as [?|Hin]; [done|by apply elem_of_nil in Hin].
  - destruct (consume_round _ _ _ _ _ _ Hc) as (st1 & k & rest & Hrest & Hr & Hk).
    eapply (IH rest); [|exact Hrest|].
    + destruct Hr as [->|[v ->]]; cbn; lia.
    + destruct Hleft as [Hex|Hin].
      * left. destruct extras; [done|discriminate].
      * apply elem_of_cons in Hin as [<-|Hin].
        -- left. specialize (Hk eq_refl). destruct extras, k; done.
        -- right. destruct Hr as [->|[v ->]]; [exact Hin|].
           apply elem_of_cons in Hin as [[=]|Hin]. exact Hin.
Qed.

(** Reading a command line with more strings at its end. *)
Lemma lex_app tbl argv l : forall ls,
  lex tbl (argv ++ l)%list = inr ls ->
  exists ls1 ls2,
    ls = (ls1 ++ ls2)%list /\
    (LDashes ∈ ls1 \/ lex tbl l = inr ls2).
Proof.
  induction argv as [|arg argv IH]; intros ls Hlex.
  - exists [], ls. split; [reflexivity|]. by right.
  - cbn [app lex] in Hlex. destruct (String.eqb arg "--").
    + injection Hlex as <-. exists (LDashes :: map LArg (argv ++ l)%list), [].
      split; [by rewrite app_nil_r|]. left. by left.
    + destruct (parse_optional tbl arg) as [?|x]; [discriminate|].
      destruct (lex tbl (argv ++ l)%list) as [?|ls'] eqn:Hl; [discriminate|].
      injection Hlex as <-.
      destruct (IH _ eq_refl) as (ls1 & ls2 & -> & Hcase).
      exists (x :: ls1), ls2. split; [reflexivity|].
      destruct Hcase as [Hin|Hl2]; [left; by right|by right].
Qed.

(** A [store] option with its value at the end of the lexemes decides
    the stored value. *)
Lemma consume_last_store tbl a o f d ls : forall st extras st' extras',
  action a = Store -> dest a = Some d ->
  consume tbl (ls ++ [LOpt a o None; LArg f])%list st extras = inr (st', extras') ->
  namespace st' !! d = Some (get_values f).
Proof.
  induction ls as [ls IH] using (induction_ltof1 _ (@length Lexeme)).
  unfold ltof in IH. intros st extras st' extras' Ha Hd Hc.
  destruct ls as [|l ls].
  - cbn [app consume] in Hc. unfold takes_value in Hc. rewrite Ha in Hc.
    cbn [take_actions] in Hc. unfold take_action in Hc. rewrite Ha, Hd in Hc.
    cbn [consume setattr] in Hc. injection Hc as <- _. cbn [namespace].
    by simplify_map_eq.
  - cbn [app] in Hc.
    destruct (consume_round _ _ _ _ _ _ Hc) as (st1 & k & rest & Hrest & Hr & _).
    destruct Hr as [->|[v Hv]].
    + eapply (IH ls); [cbn; lia|exact Ha|exact Hd|exact Hrest].
    + destruct ls as [|l' ls']; [discriminate Hv|].
      cbn [app] in Hv. injection Hv as -> <-.
      eapply (IH ls'); [cbn; lia|exact Ha|exact Hd|exact Hrest].
Qed.

(** The last [--parfile] or [--s2dfile] of an accepted command line is
    the one that counts. *)
Lemma parse_args_last_store argv a o f d args :
  a ∈ parser -> action a = Store -> dest a = Some d ->
  String.eqb o "--" = false ->
  parse_optional (option_string_actions parser) o = inr (LOpt a o None) ->
  startswith f "-" = false ->
  parse_args parser (argv ++ [o; f])%list = inr args ->
  args !! d = Some (VStr f).
Proof.
  intros Hin Ha Hd Ho Hpo Hf Hp. unfold parse_args in Hp.
  destruct (lex _ (argv ++ [o; f])%list) as [?|ls] eqn:Hlex; [discriminate|].
  destruct (consume _ ls _ []) as [?|[st extras]] eqn:Hc; [discriminate|].
  destruct (missing_required parser (seen st)); [discriminate|].
  destruct extras; [|discriminate]. injection Hp as <-.
  destruct (lex_app _ _ _ _ Hlex) as (ls1 & ls2 & -> & [Hdash|Hl2]).
  - exfalso. eapply (consume_leftovers _ _ _ _ _ _ Hc); [|reflexivity].
    right. apply elem_of_app. by left.
  - rewrite (lex_option_cons _ _ a) in Hl2 by assumption.
    rewrite lex_plain_cons in Hl2 by exact Hf. cbn [lex] in Hl2.
    injection Hl2 as <-.
    rewrite <- (get_values_plain f Hf).
    by eapply consume_last_store.
Qed.

End Parsing.

(** ** The driver *)

Section Driver.

Import argparse.

Context {Column : Type}.

Lemma parse_args_lookups argv args :
  parse_args parser argv = inr args ->
  exists s2dfile parfile plot,
    args !! "s2dfile" = Some s2dfile /\
    args !! "parfile" = Some parfile /\
    args !! "save_plot" = Some plot.
Proof.
  intros Hp. apply parse_args_dom in Hp.
  assert (Hin : forall k, k ∈ ({["s2dfile"; "parfile"; "save_plot"]} : gset string) ->
                          is_Some (args !! k)).
  { intros k Hk. apply elem_of_dom. by rewrite Hp. }
  destruct (Hin "s2dfile") as [s Hs]; [set_solver|].
  destruct (Hin "parfile") as [p Hpf]; [set_solver|].
  destruct (Hin "save_plot") as [b Hb]; [set_solver|].
  eauto 10.
Qed.

Lemma main_forwards argv args s2dfile parfile plot :
  parse_args parser argv = inr args ->
  args !! "s2dfile" = Some s2dfile ->
  args !! "parfile" = Some parfile ->
  args !! "save_plot" = Some plot ->
  @main Column argv = extract_spectrum s2dfile parfile plot.
Proof.
  intros Hp Hs Hpf Hb. unfold main, getattr. rewrite Hp, Hs, Hpf, Hb. reflexivity.
Qed.

(** C7: the driver reads the three destinations [s2dfile], [parfile] and
    [save_plot] from the namespace, which has no other, and calls
    [extract_spectrum] on the three values as they are: the two paths as
    [argparse] stored them, and the flag, a boolean that tells whether
    [--save_plot] was given.  A command line that is rejected ends the
    driver before any call.  On a command line written in full, the three
    values are the two strings and [True]. *)
Theorem driver_forwards_three_inputs (argv : list string) :
  match parse_args parser argv with
  | inr args =>
      dom args = ({["s2dfile"; "parfile"; "save_plot"]} : gset string) /\
      exists s2dfile parfile plot,
        args !! "s2dfile" = Some s2dfile /\
        args !! "parfile" = Some parfile /\
        args !! "save_plot" = Some plot /\
        (exists v, s2dfile = get_values v) /\
        (exists v, parfile = get_values v) /\
        plot = VBool (given "save_plot" argv) /\
        @main Column argv = extract_spectrum s2dfile parfile plot
  | inl e => @main Column argv = Raise e
  end /\
  (forall f g,
      startswith f "-" = false -> startswith g "-" = false ->
      @main Column ["--s2dfile"; f; "--parfile"; g; "--save_plot"] =
      extract_spectrum (VStr f) (VStr g) (VBool true)).
Proof.
  split.
  - destruct (parse_args parser argv) as [e|args] eqn:Hp.
    + unfold main. by rewrite Hp.
    + split; [by apply (parse_args_dom argv)|].
      destruct (parse_args_paths _ _ Hp) as [[s Hs] [p Hpf]].
      pose proof (parse_args_flag_given _ _ Hp) as Hb.
      exists (get_values s), (get_values p), (VBool (given "save_plot" argv)).
      repeat split; eauto. by eapply main_forwards.
  - intros f g Hf Hg.
    eapply main_forwards; [by apply parse_all_three|..];
      rewrite defaults_parser; by simplify_map_eq.
Qed.

(** C8: [--s2dfile] is required and alone suffices; without a
    [--parfile] option the parameter file is
    ['miri_lrs_demo_extract1d.json'], without a [--save_plot] option the
    plot flag is [False].  An option is absent, in particular, when no
    argument string starts with [--p], respectively [--sa]. *)
Theorem command_line_defaults :
  (forall argv args,
      parse_args parser argv = inr args -> given "s2dfile" argv = true) /\
  (forall f,
      startswith f "-" = false ->
      @main Column ["--s2dfile"; f] =
      extract_spectrum (VStr f) (VStr "miri_lrs_demo_extract1d.json") (VBool false)) /\
  (forall argv args,
      parse_args parser argv = inr args ->
      given "parfile" argv = false ->
      args !! "parfile" = Some (VStr "miri_lrs_demo_extract1d.json") /\
      exists s2dfile plot,
        @main Column argv =
        extract_spectrum s2dfile (VStr "miri_lrs_demo_extract1d.json") plot) /\
  (forall argv args,
      parse_args parser argv = inr args ->
      given "save_plot" argv = false ->
      args !! "save_plot" = Some (VBool false) /\
      exists s2dfile parfile,
        @main Column argv = extract_spectrum s2dfile parfile (VBool false)) /\
  (forall argv,
      Forall (fun arg => startswith arg "--p" = false) argv ->
      given "parfile" argv = false) /\
  (forall argv,
      Forall (fun arg => startswith arg "--sa" = false) argv ->
      given "save_plot" argv = false).
Proof.
  split; [exact parse_args_required|].
  split.
  { intros f Hf.
    eapply main_forwards; [by apply parse_s2dfile_only|..];
      rewrite defaults_parser; by simplify_map_eq. }
  split; [|split; [|split; [exact not_given_parfile|exact not_given_save_plot]]].
  - intros argv args Hp Hg.
    pose proof (parse_args_default _ _ _ Hp Hg) as Hd.
    rewrite defaults_parser in Hd.
    assert (Hpf : args !! "parfile" = Some (VStr "miri_lrs_demo_extract1d.json"))
      by (rewrite Hd; by simplify_map_eq).
    split; [exact Hpf|].
    destruct (parse_args_lookups _ _ Hp) as (s & p & b & Hs & _ & Hb).
    exists s, b. by eapply main_forwards.
  - intros argv args Hp Hg.
    pose proof (parse_args_default _ _ _ Hp Hg) as Hd.
    rewrite defaults_parser in Hd.
    assert (Hb : args !! "save_plot" = Some (VBool false))
      by (rewrite Hd; by simplify_map_eq).
    split; [exact Hb|].
    destruct (parse_args_lookups _ _ Hp) as (s & p & b & Hs & Hpf & _).
    exists s, p. by eapply main_forwards.
Qed.

(** *** Further properties of the driver *)

(** X8: the driver ends in one of three ways: exit status 0, exit status
    2, both before any library call, or the call of [extract_spectrum]
    with a boolean as plot flag.  Reading the namespace never fails. *)
Theorem driver_outcomes (argv : list string) :
  @main Column argv = Raise (SystemExit 0) \/
  @main Column argv = Raise (SystemExit 2) \/
  exists s2dfile parfile b,
    @main Column argv = extract_spectrum s2dfile parfile (VBool b).
Proof.
  destruct (parse_args parser argv) as [e|args] eqn:Hp.
  - assert (Hm : @main Column argv = Raise e) by (unfold main; by rewrite Hp).
    rewrite Hm. destruct (parse_args_error _ _ _ Hp) as [-> | ->]; eauto.
  - right; right.
    destruct (parse_args_lookups _ _ Hp) as (s & p & b & Hs & Hpf & Hb).
    destruct (parse_args_flag _ _ Hp) as [b' Hb'].
    exists s, p, b'. eapply main_forwards; eauto.
Qed.

(** X9: [-h] or [--help] in front of a command line that can be read
    exits with status 0, whatever follows and without [--s2dfile], and
    [extract_spectrum] is not entered: neither the pipeline nor [pyplot]
    is called. *)
Theorem help_exits_before_anything {World : Type} (h : @Handler Column World) w argv ls :
  lex (option_string_actions parser) argv = inr ls ->
  (result h (main ("-h" :: argv)) w = inl (SystemExit 0) /\
   trace h (main ("-h" :: argv)) w = []) /\
  (result h (main ("--help" :: argv)) w = inl (SystemExit 0) /\
   trace h (main ("--help" :: argv)) w = []).
Proof.
  intros Hlex. destruct (parse_args_help _ _ Hlex) as [H1 H2].
  unfold result, trace, main. rewrite H1, H2. repeat split; reflexivity.
Qed.

(** X10: a command line on which no argument string starts with [--sa]
    never reaches [pyplot]: whatever the libraries do, the driver makes
    no [pyplot] call. *)
Theorem driver_without_save_plot_never_plots {World : Type}
    (h : @Handler Column World) w argv :
  Forall (fun arg => startswith arg "--sa" = false) argv ->
  Forall (fun ev => is_plot_call (ev_call ev) = false) (trace h (main argv) w) /\
  savefigs (trace h (main argv) w) = [].
Proof.
  intros Hno. apply not_given_save_plot in Hno.
  destruct (parse_args parser argv) as [e|args] eqn:Hp.
  - unfold main. rewrite Hp. split; constructor.
  - destruct (parse_args_lookups _ _ Hp) as (s & p & b & Hs & Hpf & Hb).
    pose proof (parse_args_flag_given _ _ Hp) as Hb'. rewrite Hno in Hb'.
    rewrite (main_forwards _ _ _ _ _ Hp Hs Hpf Hb').
    by apply falsy_never_plots.
Qed.

(** X11: what the command line says is what [run] gets: the step is run
    on the value stored for [--s2dfile] with [override_extract1d] set to
    the value stored for [--parfile], which is the default file when no
    argument string starts with [--p]. *)
Theorem driver_arguments_reach_run {World : Type}
    (h : @Handler Column World) w argv args :
  parse_args parser argv = inr args ->
  Forall (fun '(x1d, input) =>
            args !! "s2dfile" = Some input /\
            x1d !! "override_extract1d" = args !! "parfile")
         (runs (trace h (main argv) w)) /\
  (Forall (fun arg => startswith arg "--p" = false) argv ->
   Forall (fun '(x1d, _) =>
             x1d !! "override_extract1d" = Some (VStr "miri_lrs_demo_extract1d.json"))
          (runs (trace h (main argv) w))).
Proof.
  intros Hp.
  destruct (parse_args_lookups _ _ Hp) as (s & p & b & Hs & Hpf & Hb).
  rewrite (main_forwards _ _ _ _ _ Hp Hs Hpf Hb).
  pose proof (run_gets_arguments h w s p b) as Hrun.
  split.
  - eapply Forall_impl; [exact Hrun|]. intros [x1d input] [-> Ho].
    split; [exact Hs|congruence].
  - intros Hno. apply not_given_parfile in Hno.
    pose proof (parse_args_default _ _ _ Hp Hno) as Hd.
    rewrite defaults_parser in Hd.
    assert (Hdef : args !! "parfile" = Some (VStr "miri_lrs_demo_extract1d.json"))
      by (rewrite Hd; by simplify_map_eq).
    eapply Forall_impl; [exact Hrun|]. intros [x1d input] [_ Ho]. congruence.
Qed.

(** X12: [--s2dfile] is required.  On a command line where no argument
    string starts with [--s2] the driver exits with status 0 or 2 and
    calls no library: the world is as it was. *)
Theorem driver_without_s2dfile_runs_nothing {World : Type}
    (h : @Handler Column World) w argv :
  Forall (fun arg => startswith arg "--s2" = false) argv ->
  exec h (main argv) w = (inl (SystemExit 0), w, []) \/
  exec h (main argv) w = (inl (SystemExit 2), w, []).
Proof.
  intros Hno. apply not_given_s2dfile in Hno.
  destruct (parse_args parser argv) as [e|args] eqn:Hp.
  - unfold main. rewrite Hp.
    destruct (parse_args_error _ _ _ Hp) as [-> | ->]; [by left|by right].
  - apply parse_args_required in Hp. congruence.
Qed.

(** X13: an option given several times counts once, the last time: when
    a command line ends with [--parfile f] ([--s2dfile f]) and is
    accepted, [f] is the parameter file (the input) whatever came
    before. *)
Theorem last_option_wins argv f args :
  startswith f "-" = false ->
  (parse_args parser (argv ++ ["--parfile"; f])%list = inr args ->
   args !! "parfile" = Some (VStr f)) /\
  (parse_args parser (argv ++ ["--s2dfile"; f])%list = inr args ->
   args !! "s2dfile" = Some (VStr f)).
Proof.
  intros Hf. split; intros Hp.
  - eapply (parse_args_last_store argv arg_parfile); try exact Hp; try reflexivity;
      [|exact Hf]. unfold parser. cbn. by do 2 right; left.
  - eapply (parse_args_last_store argv arg_s2dfile); try exact Hp; try reflexivity;
      [|exact Hf]. unfold parser. cbn. by right; left.
Qed.

End Driver.

(** ** The script in the small world *)

(** A run with plotting: the product is saved, then the plot. *)
Example demo_plot_run :
  exec (demo_handler "target_extract1dstep.fits")
       (extract_spectrum (VStr "l3_s2d.fits") (VStr "par.json") (VBool true)) []
  = (inr tt, ["target.png"; "./target_extract1dstep.fits"],
     trace (demo_handler "target_extract1dstep.fits")
           (extract_spectrum (VStr "l3_s2d.fits") (VStr "par.json") (VBool true)) []) /\
  plots (trace (demo_handler "target_extract1dstep.fits")
               (extract_spectrum (VStr "l3_s2d.fits") (VStr "par.json") (VBool true)) [])
  = [([5; 6; 7]%Z, [10; 20; 30]%Z)].
Proof. split; vm_compute; reflexivity. Qed.

(** A product without spectrum: the subscript raises after [plt.figure]. *)
Example empty_product_raises :
  result (fun c =>
            match c as c0 return list string -> (exn + Ret c0) * list string with
            | Step_run _ _ => fun w =>
                (inr {| spec := []; meta := {| filename := VNone |} |}, w)
            | c0 => demo_handler "x" c0
            end)
         (extract_spectrum (VStr "l3_s2d.fits") (VStr "par.json") (VInt 1)) []
  = inl IndexError.
Proof. vm_compute. reflexivity. Qed.

(** [run] raises: the exception is the caller's, nothing is plotted. *)
Example run_failure_propagates :
  exec (fun c =>
          match c as c0 return list string -> (exn + Ret c0) * list string with
          | Step_run _ _ => fun w => (inl (LibraryError "no such file"), w)
          | c0 => demo_handler "x" c0
          end)
       (@extract_spectrum (list Z) (VStr "missing.fits") (VStr "par.json") (VBool true)) []
  = (inl (LibraryError "no such file"), [],
     [ {| ev_call := Extract1dStep_new;
          ev_outcome := inr (RStep (<["save_results" := VBool false]> ∅));
          ev_after := [] |};
       {| ev_call :=
            Step_run (<["use_source_posn" := VBool false]>
                        (<["override_extract1d" := VStr "par.json"]>
                           (<["output_dir" := VStr "./"]>
                              (<["save_results" := VBool true]> ∅))))
                     (VStr "missing.fits");
          ev_outcome := inl (LibraryError "no such file");
          ev_after := [] |} ]).
Proof. vm_compute. reflexivity. Qed.

(** What [extract_spectrum] does not do: a program with a handler around
    [plt.savefig] returns although the call raised. *)
Example handler_hides_exception :
  exec (demo_handler "x")
       (Try (call (plt_savefig VNone)) (fun _ => Return tt) (fun _ => Return tt)) []
  = (inr tt, [],
     [ {| ev_call := plt_savefig VNone;
          ev_outcome := inl (LibraryError "savefig");
          ev_after := [] |} ]).
Proof. vm_compute. reflexivity. Qed.

(** [if plot:] on an object whose [__bool__] raises, an array of several
    elements for one: the step has run, the exception is the caller's. *)
Example truth_test_raises :
  result (demo_handler "x_extract1dstep.fits")
         (extract_spectrum (VStr "l3_s2d.fits") (VStr "par.json")
                           (VObject (inl (LibraryError "ValueError")))) []
  = inl (LibraryError "ValueError") /\
  final_world (demo_handler "x_extract1dstep.fits")
              (extract_spectrum (VStr "l3_s2d.fits") (VStr "par.json")
                                (VObject (inl (LibraryError "ValueError")))) []
  = ["./x_extract1dstep.fits"].
Proof. split; vm_compute; reflexivity. Qed.

(** Command lines: an abbreviation, an ambiguous one, [-h], a missing
    [--s2dfile], a stray argument, a negative number as value, an option
    where a value is due, and a glued [--]. *)
Example command_lines :
  argparse.parse_args parser ["--s2d"; "a.fits"; "--save"] =
    inr (<["save_plot" := VBool true]>
           (<["s2dfile" := VStr "a.fits"]> (argparse.defaults parser))) /\
  argparse.parse_args parser ["--s"; "a.fits"] = inl (SystemExit 2) /\
  argparse.parse_args parser ["--parfile"; "p.json"; "-h"] = inl (SystemExit 0) /\
  argparse.parse_args parser ["--parfile"; "p.json"] = inl (SystemExit 2) /\
  argparse.parse_args parser ["--s2dfile"; "a.fits"; "b.fits"] = inl (SystemExit 2) /\
  argparse.parse_args parser ["--s2dfile"; "-5"] =
    inr (<["s2dfile" := VStr "-5"]> (argparse.defaults parser)) /\
  argparse.parse_args parser ["--s2dfile"; "--save_plot"] = inl (SystemExit 2) /\
  argparse.parse_args parser ["--s2dfile=--"] =
    inr (<["s2dfile" := VList []]> (argparse.defaults parser)).
Proof. repeat split; vm_compute; reflexivity. Qed.

Example str_replace_target :
  str_replace "target_extract1dstep.fits" "_extract1dstep.fits" ".png" = "target.png" /\
  str_replace "abcabc" "bc" "-" = "a-a-" /\
  str_replace "aaa" "aa" "b" = "ba" /\
  str_replace "ab" "" "-" = "-a-b-".
Proof. repeat split. Qed.

Lemma demo_contract (fname : string) :
  forall x1d input w sp3 w' d,
    demo_handler fname (Step_run x1d input) w = (inr sp3, w') ->
    x1d !! "save_results" = Some (VBool true) ->
    x1d !! "output_dir" = Some (VStr d) ->
    saved_in d w'.
Proof.
  intros x1d input w sp3 w' d Hrun Hs Hd. cbn in Hrun. rewrite Hs, Hd in Hrun.
  injection Hrun as _ <-. exists fname. by left.
Defined.

Lemma plot_of_flux_against_wavelength_witness :
  truthy (VBool true) = true /\
  length (plots (trace (demo_handler "target_extract1dstep.fits")
                       (extract_spectrum (VStr "l3_s2d.fits") (VStr "par.json")
                                         (VBool true)) [])) = 1.
Proof.
  split; [reflexivity|].
  apply (plot_of_flux_against_wavelength (demo_handler "target_extract1dstep.fits") []
           (VStr "l3_s2d.fits") (VStr "par.json") (VBool true) eq_refl).
  vm_compute. reflexivity.
Defined.

Lemma plot_file_name_witness :
  truthy (VBool true) = true /\
  Forall (fun fname =>
            exists sp3 w1 f,
              products (trace (demo_handler "target_extract1dstep.fits")
                              (extract_spectrum (VStr "l3_s2d.fits") (VStr "par.json")
                                                (VBool true)) [])
              = [(sp3, w1)] /\
              filename (meta sp3) = VStr f /\
              fname = VStr (str_replace f "_extract1dstep.fits" ".png"))
         [VStr "target.png"].
Proof.
  split; [reflexivity|].
  exact (proj1 (plot_file_name (demo_handler "target_extract1dstep.fits") []
                  (VStr "l3_s2d.fits") (VStr "par.json") (VBool true) eq_refl)).
Defined.

Lemma no_plot_without_flag_witness :
  truthy (VBool false) = false /\
  savefigs (trace (demo_handler "target_extract1dstep.fits")
                  (extract_spectrum (VStr "l3_s2d.fits") (VStr "par.json")
                                    (VBool false)) []) = [].
Proof.
  split; [reflexivity|].
  apply (no_plot_without_flag (demo_handler "target_extract1dstep.fits") []
           (VStr "l3_s2d.fits") (VStr "par.json") (VBool false) eq_refl).
Defined.

Lemma result_file_is_saved_witness :
  truthy (VBool false) = false /\
  saved_in "./" (final_world (demo_handler "target_extract1dstep.fits")
                             (extract_spectrum (VStr "l3_s2d.fits") (VStr "par.json")
                                               (VBool false)) []).
Proof.
  split; [reflexivity|].
  apply (result_file_is_saved saved_in (demo_handler "target_extract1dstep.fits")
           (demo_contract "target_extract1dstep.fits") []
           (VStr "l3_s2d.fits") (VStr "par.json") (VBool false));
    reflexivity.
Defined.



Lemma driver_forwards_three_inputs_witness :
  startswith "l3_s2d.fits" "-" = false /\
  startswith "par.json" "-" = false /\
  @main (list Z) ["--s2dfile"; "l3_s2d.fits"; "--parfile"; "par.json"; "--save_plot"] =
  extract_spectrum (VStr "l3_s2d.fits") (VStr "par.json") (VBool true).
Proof.
  split; [reflexivity|]. split; [reflexivity|].
  apply (proj2 (driver_forwards_three_inputs [])); reflexivity.
Defined.

Lemma command_line_defaults_witness :
  startswith "l3_s2d.fits" "-" = false /\
  @main (list Z) ["--s2dfile"; "l3_s2d.fits"] =
  extract_spectrum (VStr "l3_s2d.fits") (VStr "miri_lrs_demo_extract1d.json") (VBool false).
Proof.
  split; [reflexivity|].
  apply (proj1 (proj2 command_line_defaults)). reflexivity.
Defined.

(** *** More runs in the small world *)

Lemma plotting_run_calls_witness :
  truthy (VBool true) = true /\
  length (calls (trace (demo_handler "target_extract1dstep.fits")
                       (extract_spectrum (VStr "l3_s2d.fits") (VStr "par.json")
                                         (VBool true)) [])) = 8.
Proof.
  split; [reflexivity|].
  destruct (plotting_run_calls (demo_handler "target_extract1dstep.fits") []
              (VStr "l3_s2d.fits") (VStr "par.json") (VBool true) eq_refl eq_refl)
    as (x0 & sp3 & w1 & s0 & wl & fl & f & _ & _ & _ & _ & _ & Hcalls).
  rewrite Hcalls. reflexivity.
Defined.

Lemma empty_product_index_error_witness :
  truthy (VBool true) = true /\
  result (product_handler {| spec := []; meta := {| filename := VStr "t.fits" |} |})
         (extract_spectrum (VStr "l3_s2d.fits") (VStr "par.json") (VBool true)) []
  = inl IndexError.
Proof.
  split; [reflexivity|].
  apply (empty_product_index_error
           (product_handler {| spec := []; meta := {| filename := VStr "t.fits" |} |}) []
           (VStr "l3_s2d.fits") (VStr "par.json") (VBool true)
           {| spec := []; meta := {| filename := VStr "t.fits" |} |} []
           eq_refl eq_refl eq_refl).
  vm_compute. repeat constructor.
Defined.

Lemma missing_column_key_error_witness :
  truthy (VBool true) = true /\
  result (product_handler
            {| spec := [ {| spec_table := <["WAVELENGTH" := [5; 6]%Z]> ∅ |} ];
               meta := {| filename := VStr "t.fits" |} |})
         (extract_spectrum (VStr "l3_s2d.fits") (VStr "par.json") (VBool true)) []
  = inl (KeyError "FLUX").
Proof.
  split; [reflexivity|].
  pose (s0 := {| spec_table := <["WAVELENGTH" := [5; 6]%Z]> (∅ : gmap string (list Z)) |}).
  pose (sp3 := {| spec := [s0]; meta := {| filename := VStr "t.fits" |} |}).
  assert (Hprod : products (trace (product_handler sp3)
                    (extract_spectrum (VStr "l3_s2d.fits") (VStr "par.json") (VBool true)) [])
                  = [(sp3, [])]) by (vm_compute; reflexivity).
  assert (Hflux : spec_table s0 !! "FLUX" = None) by (vm_compute; reflexivity).
  assert (Hwl : spec_table s0 !! "WAVELENGTH" = Some [5; 6]%Z) by (vm_compute; reflexivity).
  destruct (missing_column_key_error (product_handler sp3) []
              (VStr "l3_s2d.fits") (VStr "par.json") (VBool true) sp3 [] s0
              eq_refl Hprod eq_refl (or_intror Hflux)) as (_ & _ & Hres).
  rewrite Hwl in Hres. apply Hres. vm_compute. repeat constructor.
Defined.


Lemma plot_file_name_png_witness :
  truthy (VBool true) = true /\
  contains (chop "target_extract1dstep.fits") "_extract1dstep.fits" = false /\
  savefigs (trace (demo_handler "target_extract1dstep.fits")
                  (extract_spectrum (VStr "l3_s2d.fits") (VStr "par.json")
                                    (VBool true)) [])
  = [VStr "target.png"].
Proof.
  split; [reflexivity|]. split; [reflexivity|].
  apply (plot_file_name_png (demo_handler "target_extract1dstep.fits") []
           (VStr "l3_s2d.fits") (VStr "par.json") (VBool true)
           (demo_product "target_extract1dstep.fits") ["./target_extract1dstep.fits"]
           "target" eq_refl eq_refl eq_refl eq_refl).
  reflexivity.
Defined.

Lemma plots_iff_truthy_witness :
  truthy (VStr "False") = true /\
  existsb (fun ev => is_plot_call (ev_call ev))
          (trace (demo_handler "target_extract1dstep.fits")
                 (extract_spectrum (VStr "l3_s2d.fits") (VStr "par.json")
                                   (VStr "False")) [])
  = true.
Proof.
  split; [reflexivity|].
  exact (plots_iff_truthy (demo_handler "target_extract1dstep.fits") []
           (VStr "l3_s2d.fits") (VStr "par.json") (VStr "False")
           (demo_product "target_extract1dstep.fits") ["./target_extract1dstep.fits"]
           eq_refl).
Defined.

Lemma help_exits_before_anything_witness :
  result (demo_handler "t.fits") (main ["-h"; "--parfile"; "p.json"]) []
  = inl (SystemExit 0) /\
  trace (demo_handler "t.fits") (main ["-h"; "--parfile"; "p.json"]) [] = [].
Proof.
  apply (help_exits_before_anything (demo_handler "t.fits") []
           ["--parfile"; "p.json"]
           [argparse.LOpt arg_parfile "--parfile" None; argparse.LArg "p.json"]).
  reflexivity.
Defined.

Lemma driver_without_save_plot_never_plots_witness :
  savefigs (trace (demo_handler "t_extract1dstep.fits")
                  (main ["--s2dfile"; "l3_s2d.fits"]) []) = [].
Proof.
  apply (driver_without_save_plot_never_plots (demo_handler "t_extract1dstep.fits") []
           ["--s2dfile"; "l3_s2d.fits"]).
  repeat constructor.
Defined.

Lemma driver_arguments_reach_run_witness :
  Forall (fun '(x1d, _) =>
            x1d !! "override_extract1d" = Some (VStr "miri_lrs_demo_extract1d.json"))
         (runs (trace (demo_handler "t_extract1dstep.fits")
                      (main ["--s2dfile"; "l3_s2d.fits"; "--save_plot"]) [])).
Proof.
  apply (driver_arguments_reach_run (demo_handler "t_extract1dstep.fits") []
           ["--s2dfile"; "l3_s2d.fits"; "--save_plot"]
           (<["save_plot" := VBool true]>
              (<["s2dfile" := VStr "l3_s2d.fits"]> (argparse.defaults parser)))).
  - vm_compute. reflexivity.
  - repeat constructor.
Defined.

Lemma driver_without_s2dfile_runs_nothing_witness :
  exec (demo_handler "t.fits") (main ["--parfile"; "p.json"]) ["kept"]
  = (inl (SystemExit 0), ["kept"], []) \/
  exec (demo_handler "t.fits") (main ["--parfile"; "p.json"]) ["kept"]
  = (inl (SystemExit 2), ["kept"], []).
Proof.
  apply (driver_without_s2dfile_runs_nothing (demo_handler "t.fits") ["kept"]
           ["--parfile"; "p.json"]).
  repeat constructor.
Defined.

Lemma last_option_wins_witness :
  startswith "b.json" "-" = false /\
  argparse.parse_args parser
    ["--parfile"; "a.json"; "--s2dfile"; "x.fits"; "--parfile"; "b.json"]
  = inr (<["parfile" := VStr "b.json"]>
           (<["s2dfile" := VStr "x.fits"]> (argparse.defaults parser))) /\
  (<["parfile" := VStr "b.json"]>
     (<["s2dfile" := VStr "x.fits"]> (argparse.defaults parser)) : gmap string pyval)
    !! "parfile" = Some (VStr "b.json").
Proof.
  split; [reflexivity|]. split; [vm_compute; reflexivity|].
  apply (proj1 (last_option_wins ["--parfile"; "a.json"; "--s2dfile"; "x.fits"]
                  "b.json" _ eq_refl)).
  vm_compute. reflexivity.
Defined.
